(** * Security-policy appender of the Kiali graph: the mutual-TLS annotation

    A shallow embedding of [graph/telemetry/istio/appender/security_policy.go]
    and the properties its specification states about it.

    Go maps are finite maps ([gmap]); [float64] is the kernel's binary64
    ([PrimFloat.float]); a [map[string]interface{}] holds tagged values; a
    pointer to a node is followed only to read the node's ID, so an edge
    carries the referenced IDs.  Calls into collaborators whose code is not
    part of [security_policy.go] ([graph.Id], [getIstioNamespaces],
    [promQuery], [prometheus.NewClient], the iteration order of a Go map)
    are parameters of the development. *)

From Stdlib Require Import PrimFloat ZArith Ascii DecimalString.
From stdpp Require Import gmap strings list fin_maps.

Local Open Scope Z_scope.

(** ** Data model *)

(** [PolicyRates]: [map[string]float64], connection-security-policy label to
    rate. *)
Abbreviation PolicyRates := (gmap string float).

(** The aggregated policy map, [map[string]PolicyRates], keyed by
    ["<source-ID> <dest-ID>"]. *)
Abbreviation SecurityPolicyMap := (gmap string (gmap string float)).

(** A value of an edge's [Metadata map[string]interface{}]. *)
Inductive MetaValue : Type :=
  | MetaFloat (f : float)
  | MetaString (s : string)
  | MetaBool (b : bool).

(** [*graph.Node] as reached from an edge: only [ID] is read. *)
Record NodeRef : Type := { ID : string }.

(** [graph.Edge]. *)
Record Edge : Type := {
  Source : NodeRef;
  Dest : NodeRef;
  Metadata : gmap string MetaValue
}.

(** [graph.Node]: its ID and the edges it owns. *)
Record Node : Type := {
  NodeID : string;
  Edges : list Edge
}.

(** [graph.TrafficMap]: [map[string]*Node]. *)
Abbreviation TrafficMap := (gmap string Node).

(** [model.Sample]: the label set and the instantaneous value. *)
Record Sample : Type := {
  Metric : gmap string string;
  Value : float
}.

(** [model.Vector]. *)
Abbreviation Vector := (list Sample).

(** [graph.NamespaceInfo]: the query window of a namespace, in nanoseconds
    ([time.Duration]). *)
Record NamespaceInfo : Type := {
  Duration : Z
}.

(** [SecurityPolicyAppender]. *)
Record SecurityPolicyAppender : Type := {
  GraphType : string;
  InjectServiceNodes : bool;
  Namespaces : gmap string NamespaceInfo;
  QueryTime : Z
}.

(** [graph.AppenderNamespaceInfo]. *)
Record AppenderNamespaceInfo : Type := {
  Namespace : string
}.

(** One call of the metrics client: the expression and the evaluation
    instant (unix seconds). *)
Record Query : Type := {
  qExpr : string;
  qTime : Z
}.

(** [graph.AppenderGlobalInfo], over the type of the metrics client. *)
Record AppenderGlobalInfo (Client : Type) : Type := {
  PromClient : option Client
}.
Arguments PromClient {Client} _.

(** What an invocation of the appender can change: the traffic map, the
    shared global info, and the queries issued to the metrics backend so
    far (oldest first). *)
Record World (Client : Type) : Type := {
  trafficMap : TrafficMap;
  globalInfo : AppenderGlobalInfo Client;
  queries : list Query
}.
Arguments trafficMap {Client} _.
Arguments globalInfo {Client} _.
Arguments queries {Client} _.

(** The result of a call that may end in [graph.CheckError]'s panic. *)
Inductive Outcome (A : Type) : Type :=
  | Done (a : A)
  | Panicked (err : string).
Arguments Done {A} a.
Arguments Panicked {A} err.

Definition policyMTLS : string := "mutual_tls".

(** The double quote character, and [fmt]'s rendering of an [int] in
    decimal. *)
Definition dq : string := String (Ascii.ascii_of_nat 34) EmptyString.

Definition fmtInt (n : Z) : string := NilZero.string_of_int (Z.to_int n).

(** Whether a character occurs in a string. *)
Fixpoint hasChar (c : ascii) (s : string) : bool :=
  match s with
  | EmptyString => false
  | String c' s' => Ascii.eqb c c' || hasChar c s'
  end.

(** [m[k]] on a [model.Metric]: the value (the zero value when absent) and
    the [ok] flag. *)
Definition label (m : gmap string string) (k : string) : string :=
  default EmptyString (m !! k).

Definition labelOk (m : gmap string string) (k : string) : bool :=
  bool_decide (is_Some (m !! k)).

(** [fmt.Sprintf("%s %s", sourceId, destId)]. *)
Definition edgeKey (sourceId destId : string) : string :=
  sourceId +:+ " " +:+ destId.

(** The body of [for policy, rate := range policyRates] of
    [applySecurityPolicy], on the entries in the order the loop visits them:
    the pair [(mtls, other)] after the loop. *)
Definition rateStep (acc : float * float) (kv : string * float) : float * float :=
  if String.eqb (fst kv) policyMTLS
  then (snd kv, snd acc)
  else (fst acc, (snd acc + snd kv)%float).

Definition sumRates (kvs : list (string * float)) : float * float :=
  fold_left rateStep kvs (0%float, 0%float).

(** [mtls / (mtls + other) * 100]. *)
Definition mtlsPercentage (mtls other : float) : float :=
  (mtls / (mtls + other) * 100)%float.

(** ** A concrete mesh, used to run the appender

    A small node-identity function (a service node when no workload is
    named, a workload node otherwise), a backend that answers every query
    with two series from workload [a] to workload [b] through service [svc]
    (one per connection security policy), and a traffic map with the edge
    [a -> b]. *)

Definition fixtureId (namespace service workloadNamespace workload app version
    graphType : string) : string * string :=
  if String.eqb workload "" then ("svc_" +:+ namespace +:+ "_" +:+ service, "service")
  else ("wl_" +:+ workloadNamespace +:+ "_" +:+ workload, "workload").

Definition fixtureIstioNamespaces (namespaces : gmap string NamespaceInfo) : list string :=
  if decide (is_Some (namespaces !! "istio-system")) then ["istio-system"; "istio-telemetry"]
  else [].

Definition fixtureSeconds (d : Z) : Z := Z.quot d 1000000000.

Definition fixtureMetric (csp : string) : gmap string string :=
  list_to_map
    [ ("source_workload_namespace", "ns"); ("source_workload", "a");
      ("source_app", "a"); ("source_version", "v1");
      ("destination_service_namespace", "ns"); ("destination_service_name", "svc");
      ("destination_workload_namespace", "ns"); ("destination_workload", "b");
      ("destination_app", "b"); ("destination_version", "v1");
      ("connection_security_policy", csp) ].

Definition fixtureSample (csp : string) (rate : float) : Sample :=
  {| Metric := fixtureMetric csp; Value := rate |}.

Definition fixtureQuery (query : string) (queryTime : Z) (client : unit) : Vector :=
  [fixtureSample "mutual_tls" 8%float; fixtureSample "none" 2%float].

(** A backend that answers the outbound query (the one with a [!=]
    matcher) with rates 8 under mutual TLS and 2 without, and the inbound
    query with rate 2 under mutual TLS, all for the pair [a -> b]. *)
Definition fixtureDirectionalQuery (query : string) (queryTime : Z) (client : unit)
    : Vector :=
  if hasChar "!" query
  then [fixtureSample "mutual_tls" 8%float; fixtureSample "none" 2%float]
  else [fixtureSample "mutual_tls" 2%float].

Definition fixtureEdge : Edge :=
  {| Source := {| ID := "wl_ns_a" |}; Dest := {| ID := "wl_ns_b" |};
     Metadata := {[ "protocol" := MetaString "http" ]} |}.

Definition fixtureTrafficMap : TrafficMap :=
  {[ "wl_ns_a" := {| NodeID := "wl_ns_a"; Edges := [fixtureEdge] |};
     "wl_ns_b" := {| NodeID := "wl_ns_b"; Edges := [] |} ]}.

Definition fixtureAppender (inject : bool) (namespaces : gmap string NamespaceInfo)
    : SecurityPolicyAppender :=
  {| GraphType := "workload"; InjectServiceNodes := inject;
     Namespaces := namespaces; QueryTime := 1600000000 |}.

Definition fixtureNamespaces : gmap string NamespaceInfo :=
  {[ "ns" := {| Duration := 60000000000 |};
     "istio-system" := {| Duration := 60000000000 |} ]}.

Definition fixtureWorld (tm : TrafficMap) (client : option unit) : World unit :=
  {| trafficMap := tm; globalInfo := {| PromClient := client |}; queries := [] |}.

(** The metadata value under a key of the [i]-th edge of a node. *)
Definition metadataAt (tm : TrafficMap) (n : string) (i : nat) (k : string)
    : option MetaValue :=
  match tm !! n with
  | Some node =>
      match Edges node !! i with
      | Some e => Metadata e !! k
      | None => None
      end
  | None => None
  end.

(** A series that lacks its [connection_security_policy] label. *)
Definition fixtureBrokenSample : Sample :=
  {| Metric := delete "connection_security_policy" (fixtureMetric "mutual_tls");
     Value := 1%float |}.

(** ** The appender *)

Section Appender.

Set Default Proof Using "Type".

(** [graph.Id(namespace, service, workloadNamespace, workload, app, version,
    graphType)]: the node's ID and its kind. *)
Variable Id :
  string -> string -> string -> string -> string -> string -> string ->
  string * string.

(** [graph.NodeTypeService] and [graph.IsMTLS]. *)
Variable NodeTypeService : string.
Variable IsMTLS : string.

(** [getIstioNamespaces]: the names of the infrastructure namespaces. *)
Variable getIstioNamespaces : gmap string NamespaceInfo -> list string.

(** [int(d.Seconds())] on a [time.Duration] of [d] nanoseconds. *)
Variable intSeconds : Z -> Z.

(** The metrics client: its type, the outcome of [prometheus.NewClient()]
    ([inl] is the error), and the samples the backend answers to a query
    evaluated at an instant. *)
Variable Client : Type.
Variable NewClient : string + Client.
Variable promQuery : string -> Z -> Client -> Vector.

(** The order in which [range] visits the entries of a [PolicyRates] map:
    Go leaves it unspecified, so it is any enumeration of the entries. *)
Variable rangeOrder : PolicyRates -> list (string * float).
Hypothesis rangeOrder_perm : forall m : PolicyRates, rangeOrder m ≡ₚ map_to_list m.

(** [addSecurityPolicy]. *)
Definition addSecurityPolicy (a : SecurityPolicyAppender)
    (securityPolicyMap : SecurityPolicyMap) (csp : string) (val : float)
    (sourceNs sourceSvc sourceWl sourceApp sourceVer
     destSvcNs destSvc destWlNs destWl destApp destVer : string)
    : SecurityPolicyMap :=
  let sourceId := fst (Id sourceNs sourceSvc sourceNs sourceWl sourceApp sourceVer (GraphType a)) in
  let destId := fst (Id destSvcNs destSvc destWlNs destWl destApp destVer (GraphType a)) in
  let key := edgeKey sourceId destId in
  match securityPolicyMap !! key with
  | Some policyRates => <[key := <[csp := val]> policyRates]> securityPolicyMap
  | None => <[key := <[csp := val]> (∅ : PolicyRates)]> securityPolicyMap
  end.

(** The guard of [populateSecurityPolicyMap]: every grouping label is there. *)
Definition requiredLabelsOk (m : gmap string string) : bool :=
  labelOk m "source_workload_namespace" && labelOk m "source_workload"
  && labelOk m "source_app" && labelOk m "source_version"
  && labelOk m "destination_service_namespace" && labelOk m "destination_service_name"
  && labelOk m "destination_workload_namespace" && labelOk m "destination_workload"
  && labelOk m "destination_app" && labelOk m "destination_version"
  && labelOk m "connection_security_policy".

(** One iteration of the loop of [populateSecurityPolicyMap]. *)
Definition populateSample (a : SecurityPolicyAppender)
    (securityPolicyMap : SecurityPolicyMap) (s : Sample) : SecurityPolicyMap :=
  let m := Metric s in
  if negb (requiredLabelsOk m) then securityPolicyMap (* continue *)
  else
    let sourceWlNs := label m "source_workload_namespace" in
    let sourceWl := label m "source_workload" in
    let sourceApp := label m "source_app" in
    let sourceVer := label m "source_version" in
    let destSvcNs := label m "destination_service_namespace" in
    let destSvc := label m "destination_service_name" in
    let destWlNs := label m "destination_workload_namespace" in
    let destWl := label m "destination_workload" in
    let destApp := label m "destination_app" in
    let destVer := label m "destination_version" in
    let csp := label m "connection_security_policy" in
    let destSvcOk := labelOk m "destination_service_name" in
    let val := Value s in
    if InjectServiceNodes a then
      let destNodeType := snd (Id destSvcNs destSvc destWlNs destWl destApp destVer (GraphType a)) in
      if destSvcOk && negb (String.eqb destNodeType NodeTypeService) then
        let securityPolicyMap :=
          addSecurityPolicy a securityPolicyMap csp val
            sourceWlNs "" sourceWl sourceApp sourceVer destSvcNs destSvc "" "" "" "" in
        addSecurityPolicy a securityPolicyMap csp val
          destSvcNs destSvc "" "" "" destSvcNs destSvc destWlNs destWl destApp destVer
      else
        addSecurityPolicy a securityPolicyMap csp val
          sourceWlNs "" sourceWl sourceApp sourceVer destSvcNs destSvc destWlNs destWl destApp destVer
    else
      addSecurityPolicy a securityPolicyMap csp val
        sourceWlNs "" sourceWl sourceApp sourceVer destSvcNs destSvc destWlNs destWl destApp destVer.

(** [populateSecurityPolicyMap]: the loop over the vector. *)
Definition populateSecurityPolicyMap (a : SecurityPolicyAppender)
    (securityPolicyMap : SecurityPolicyMap) (vector : Vector) : SecurityPolicyMap :=
  fold_left (populateSample a) vector securityPolicyMap.

(** The body of the loop over a node's edges in [applySecurityPolicy]. *)
Definition applyEdge (securityPolicyMap : SecurityPolicyMap) (e : Edge) : Edge :=
  let key := edgeKey (ID (Source e)) (ID (Dest e)) in
  match securityPolicyMap !! key with
  | Some policyRates =>
      let '(mtls, other) := sumRates (rangeOrder policyRates) in
      {| Source := Source e; Dest := Dest e;
         Metadata := <[IsMTLS := MetaFloat (mtlsPercentage mtls other)]> (Metadata e) |}
  | None => e
  end.

Definition applyNode (securityPolicyMap : SecurityPolicyMap) (s : Node) : Node :=
  {| NodeID := NodeID s; Edges := applyEdge securityPolicyMap <$> Edges s |}.

(** [applySecurityPolicy]: every edge of every node is visited once and
    updated in place. *)
Definition applySecurityPolicy (trafficMap : TrafficMap)
    (securityPolicyMap : SecurityPolicyMap) : TrafficMap :=
  applyNode securityPolicyMap <$> trafficMap.

Definition groupBy : string :=
  "source_workload_namespace,source_workload,source_app,source_version,destination_service_namespace,destination_service_name,destination_workload_namespace,destination_workload,destination_app,destination_version,connection_security_policy".

(** The first query of [appendGraph]: requests entering the namespace. *)
Definition outboundQuery (a : SecurityPolicyAppender) (namespace : string) : string :=
  let duration := Duration (default {| Duration := 0 |} (Namespaces a !! namespace)) in
  "sum(rate(" +:+ "istio_requests_total" +:+ "{reporter=" +:+ dq +:+ "destination" +:+ dq
  +:+ ",source_workload_namespace!=" +:+ dq +:+ namespace +:+ dq
  +:+ ",destination_service_namespace=" +:+ dq +:+ namespace +:+ dq
  +:+ "}[" +:+ fmtInt (intSeconds duration) +:+ "s]) > 0) by (" +:+ groupBy +:+ ")".

(** [destinationWorkloadNamespaceQuery]: the exclusion clause. *)
Definition destinationWorkloadNamespaceQuery (a : SecurityPolicyAppender) : string :=
  let excludedIstioNamespaces := getIstioNamespaces (Namespaces a) in
  if decide (0 < length excludedIstioNamespaces)%nat then
    let excludedIstioRegex := String.concat "|" excludedIstioNamespaces in
    ",destination_service_namespace!~" +:+ dq +:+ excludedIstioRegex +:+ dq
  else "".

(** The second query of [appendGraph]: requests leaving the namespace. *)
Definition inboundQuery (a : SecurityPolicyAppender) (namespace : string) : string :=
  let duration := Duration (default {| Duration := 0 |} (Namespaces a !! namespace)) in
  "sum(rate(" +:+ "istio_requests_total" +:+ "{reporter=" +:+ dq +:+ "destination" +:+ dq
  +:+ ",source_workload_namespace=" +:+ dq +:+ namespace +:+ dq
  +:+ destinationWorkloadNamespaceQuery a
  +:+ "}[" +:+ fmtInt (intSeconds duration) +:+ "s]) > 0) by (" +:+ groupBy +:+ ")".

(** [appendGraph]: the two queries, the aggregation of their results
    (outbound first) and the annotation of the traffic map.  Returns the
    traffic map and the query log. *)
Definition appendGraph (a : SecurityPolicyAppender) (trafficMap : TrafficMap)
    (namespace : string) (client : Client) (log : list Query)
    : TrafficMap * list Query :=
  let query := outboundQuery a namespace in
  let outVector := promQuery query (QueryTime a) client in
  let log := log ++ [{| qExpr := query; qTime := QueryTime a |}] in
  let query := inboundQuery a namespace in
  let inVector := promQuery query (QueryTime a) client in
  let log := log ++ [{| qExpr := query; qTime := QueryTime a |}] in
  let securityPolicyMap := (∅ : SecurityPolicyMap) in
  let securityPolicyMap := populateSecurityPolicyMap a securityPolicyMap outVector in
  let securityPolicyMap := populateSecurityPolicyMap a securityPolicyMap inVector in
  (applySecurityPolicy trafficMap securityPolicyMap, log).

(** [AppendGraph]. *)
Definition AppendGraph (a : SecurityPolicyAppender) (w : World Client)
    (namespaceInfo : AppenderNamespaceInfo) : Outcome (World Client) :=
  if decide (size (trafficMap w) = 0%nat) then Done w
  else
    match
      match PromClient (globalInfo w) with
      | Some client => Done (client, globalInfo w)
      | None =>
          match NewClient with
          | inr client => Done (client, {| PromClient := Some client |})
          | inl err => Panicked err (* graph.CheckError(err) *)
          end
      end
    with
    | Panicked err => Panicked err
    | Done (client, globalInfo') =>
        let '(trafficMap', log) :=
          appendGraph a (trafficMap w) (Namespace namespaceInfo) client (queries w) in
        Done {| trafficMap := trafficMap'; globalInfo := globalInfo'; queries := log |}
    end.

(** ** Auxiliary definitions for the proofs *)

(** The key [addSecurityPolicy] computes from its identity arguments. *)
Definition policyKey (a : SecurityPolicyAppender)
    (sourceNs sourceSvc sourceWl sourceApp sourceVer
     destSvcNs destSvc destWlNs destWl destApp destVer : string) : string :=
  edgeKey
    (fst (Id sourceNs sourceSvc sourceNs sourceWl sourceApp sourceVer (GraphType a)))
    (fst (Id destSvcNs destSvc destWlNs destWl destApp destVer (GraphType a))).

(** Writing one rate into one slot of the aggregated map. *)
Definition setRate (key csp : string) (val : float)
    (m : SecurityPolicyMap) : SecurityPolicyMap :=
  <[key := <[csp := val]> (default (∅ : PolicyRates) (m !! key))]> m.

(** The rate stored for a key under a policy label, if any. *)
Definition rateAt (m : SecurityPolicyMap) (key csp : string) : option float :=
  m !! key ≫= fun policyRates : PolicyRates => policyRates !! csp.

(** A slot assignment, and the assignments one sample performs, in order. *)
Record Write : Type := { wKey : string; wLabel : string; wVal : float }.

Definition applyWrite (m : SecurityPolicyMap) (w : Write) : SecurityPolicyMap :=
  setRate (wKey w) (wLabel w) (wVal w) m.

Definition sampleWrites (a : SecurityPolicyAppender) (s : Sample) : list Write :=
  let m := Metric s in
  let srcNs := label m "source_workload_namespace" in
  let srcWl := label m "source_workload" in
  let srcApp := label m "source_app" in
  let srcVer := label m "source_version" in
  let dSvcNs := label m "destination_service_namespace" in
  let dSvc := label m "destination_service_name" in
  let dWlNs := label m "destination_workload_namespace" in
  let dWl := label m "destination_workload" in
  let dApp := label m "destination_app" in
  let dVer := label m "destination_version" in
  let csp := label m "connection_security_policy" in
  let direct :=
    {| wKey := policyKey a srcNs "" srcWl srcApp srcVer dSvcNs dSvc dWlNs dWl dApp dVer;
       wLabel := csp; wVal := Value s |} in
  if negb (requiredLabelsOk m) then []
  else if InjectServiceNodes a
          && (labelOk m "destination_service_name"
              && negb (String.eqb (snd (Id dSvcNs dSvc dWlNs dWl dApp dVer (GraphType a)))
                         NodeTypeService))
  then [ {| wKey := policyKey a srcNs "" srcWl srcApp srcVer dSvcNs dSvc "" "" "" "";
            wLabel := csp; wVal := Value s |};
         {| wKey := policyKey a dSvcNs dSvc "" "" "" dSvcNs dSvc dWlNs dWl dApp dVer;
            wLabel := csp; wVal := Value s |} ]
  else [direct].

(** The eleven grouping labels a series must carry. *)
Definition requiredLabels : list string :=
  [ "source_workload_namespace"; "source_workload"; "source_app"; "source_version";
    "destination_service_namespace"; "destination_service_name";
    "destination_workload_namespace"; "destination_workload"; "destination_app";
    "destination_version"; "connection_security_policy" ].

(** The rate under the mutual-TLS label (0 when absent), and the sum of the
    other rates in the order the entries are visited. *)
Definition mtlsRate (policyRates : PolicyRates) : float :=
  default 0%float (policyRates !! policyMTLS).

Definition otherRate (kvs : list (string * float)) : float :=
  fold_left (fun acc rate => (acc + rate)%float)
    (snd <$> filter (fun kv : string * float => fst kv ≠ policyMTLS) kvs) 0%float.

(** ** Slot assignments *)

Lemma addSecurityPolicy_setRate a m csp val sNs sSvc sWl sApp sVer dSvcNs dSvc dWlNs dWl dApp dVer :
  addSecurityPolicy a m csp val sNs sSvc sWl sApp sVer dSvcNs dSvc dWlNs dWl dApp dVer
  = setRate (policyKey a sNs sSvc sWl sApp sVer dSvcNs dSvc dWlNs dWl dApp dVer) csp val m.
Proof.
  unfold addSecurityPolicy, setRate, policyKey; cbv zeta.
  by destruct (m !! _).
Qed.

Lemma rateAt_setRate m key csp val key' csp' :
  rateAt (setRate key csp val m) key' csp'
  = if decide (key = key' ∧ csp = csp') then Some val else rateAt m key' csp'.
Proof.
  unfold rateAt, setRate.
  destruct (decide (key = key')) as [<-|Hk].
  - rewrite lookup_insert_eq; simpl.
    destruct (decide (csp = csp')) as [<-|Hc].
    + rewrite lookup_insert_eq. by rewrite decide_True.
    + rewrite lookup_insert_ne by done.
      destruct (decide _) as [[_ ?]|_]; [done|].
      by destruct (m !! key).
  - rewrite lookup_insert_ne by done.
    destruct (decide _) as [[? _]|_]; done.
Qed.

Lemma setRate_overwrite key csp v1 v2 m :
  setRate key csp v2 (setRate key csp v1 m) = setRate key csp v2 m.
Proof.
  unfold setRate. rewrite lookup_insert_eq; simpl.
  by rewrite !insert_insert_eq.
Qed.

Lemma setRate_commute k1 l1 v1 k2 l2 v2 m :
  ¬ (k1 = k2 ∧ l1 = l2) →
  setRate k1 l1 v1 (setRate k2 l2 v2 m) = setRate k2 l2 v2 (setRate k1 l1 v1 m).
Proof.
  intros Hne. unfold setRate.
  destruct (decide (k1 = k2)) as [<-|Hk].
  - rewrite !lookup_insert_eq; simpl. rewrite !insert_insert_eq.
    f_equal. apply insert_insert_ne. intros ->. by apply Hne.
  - rewrite !lookup_insert_ne by done.
    by apply insert_insert_ne.
Qed.

Lemma populateSample_writes a m s :
  populateSample a m s = fold_left applyWrite (sampleWrites a s) m.
Proof.
  unfold populateSample, sampleWrites; cbv zeta.
  destruct (negb (requiredLabelsOk (Metric s))); [done|].
  destruct (InjectServiceNodes a); simpl.
  - destruct (labelOk (Metric s) "destination_service_name" && negb _); simpl;
      by rewrite !addSecurityPolicy_setRate.
  - by rewrite addSecurityPolicy_setRate.
Qed.

Lemma populate_writes a m v :
  populateSecurityPolicyMap a m v = fold_left applyWrite (flat_map (sampleWrites a) v) m.
Proof.
  unfold populateSecurityPolicyMap. revert m.
  induction v as [|s v IH]; intros m; simpl; [done|].
  by rewrite fold_left_app, IH, populateSample_writes.
Qed.

Lemma populate_app a m v1 v2 :
  populateSecurityPolicyMap a m (v1 ++ v2)
  = populateSecurityPolicyMap a (populateSecurityPolicyMap a m v1) v2.
Proof. unfold populateSecurityPolicyMap. apply fold_left_app. Qed.

(** Whether a list of assignments touches a slot. *)
Definition writesSlot (ws : list Write) (key csp : string) : Prop :=
  Exists (fun w => wKey w = key ∧ wLabel w = csp) ws.

#[local] Instance writesSlot_dec ws key csp : Decision (writesSlot ws key csp).
Proof. unfold writesSlot. apply _. Defined.

Lemma rateAt_writes_untouched ws m key csp :
  ¬ writesSlot ws key csp →
  rateAt (fold_left applyWrite ws m) key csp = rateAt m key csp.
Proof.
  unfold writesSlot. revert m.
  induction ws as [|w ws IH]; intros m Hno; simpl; [done|].
  rewrite Exists_cons in Hno.
  rewrite IH by (intros Hws; apply Hno; by right).
  unfold applyWrite. rewrite rateAt_setRate.
  destruct (decide _) as [Hhd|_]; [|done].
  exfalso. apply Hno. by left.
Qed.

Lemma rateAt_writes_touched ws m m' key csp :
  writesSlot ws key csp →
  rateAt (fold_left applyWrite ws m) key csp
  = rateAt (fold_left applyWrite ws m') key csp.
Proof.
  revert m m'. induction ws as [|w ws IH]; intros m m' Hw.
  - by apply Exists_nil in Hw.
  - simpl.
    destruct (decide (writesSlot ws key csp)) as [Hws|Hws]; [by apply IH|].
    rewrite !rateAt_writes_untouched by done.
    apply Exists_cons in Hw as [Hhd|Htl]; [|done].
    unfold applyWrite. rewrite !rateAt_setRate.
    destruct (decide _) as [_|Hn]; [done|]. by destruct Hn.
Qed.

(** ** The guard on the grouping labels *)

Lemma requiredLabelsOk_true m :
  (∀ k, k ∈ requiredLabels → is_Some (m !! k)) → requiredLabelsOk m = true.
Proof.
  intros H. unfold requiredLabelsOk, labelOk.
  rewrite !bool_decide_eq_true_2; [done|apply H; unfold requiredLabels;
     repeat first [apply list_elem_of_here | apply list_elem_of_further]..].
Qed.

Lemma requiredLabelsOk_false m k :
  k ∈ requiredLabels → m !! k = None → requiredLabelsOk m = false.
Proof.
  intros Hk Hm. unfold requiredLabelsOk, labelOk.
  assert (Hb : bool_decide (is_Some (m !! k)) = false).
  { apply bool_decide_eq_false_2. rewrite Hm. by intros [? ?]. }
  unfold requiredLabels in Hk.
  repeat (apply elem_of_cons in Hk as [->|Hk];
          [rewrite Hb; simpl; by rewrite ?andb_false_r|]).
  by apply elem_of_nil in Hk.
Qed.

(** ** Overwriting and idempotence of the aggregation *)

(** Two maps agree up to the slot [w] assigns. *)
Definition agreeUpTo (w : Write) (x y : SecurityPolicyMap) : Prop :=
  applyWrite x w = applyWrite y w.

Lemma agreeUpTo_step w u x y :
  agreeUpTo w x y → agreeUpTo w (applyWrite x u) (applyWrite y u).
Proof.
  unfold agreeUpTo, applyWrite. intros Hxy.
  destruct (decide (wKey w = wKey u ∧ wLabel w = wLabel u)) as [[Hk Hl]|Hne].
  - rewrite Hk, Hl in *. by rewrite !setRate_overwrite.
  - rewrite (setRate_commute _ _ _ _ _ _ x) by done.
    rewrite (setRate_commute _ _ _ _ _ _ y) by done.
    by rewrite Hxy.
Qed.

Lemma agreeUpTo_fold w ws x y :
  agreeUpTo w x y →
  agreeUpTo w (fold_left applyWrite ws x) (fold_left applyWrite ws y).
Proof.
  revert x y. induction ws as [|u ws IH]; intros x y Hxy; simpl; [done|].
  by apply IH, agreeUpTo_step.
Qed.

Lemma writes_idempotent ws m :
  fold_left applyWrite ws (fold_left applyWrite ws m) = fold_left applyWrite ws m.
Proof.
  revert m. induction ws as [|w ws IH] using rev_ind; intros m; [done|].
  rewrite !fold_left_app; simpl.
  transitivity (applyWrite (fold_left applyWrite ws (fold_left applyWrite ws m)) w).
  - apply (agreeUpTo_fold w ws). unfold agreeUpTo, applyWrite.
    apply setRate_overwrite.
  - by rewrite IH.
Qed.

(** ** Properties of [populateSecurityPolicyMap] *)

Lemma populate_snoc a m v s :
  populateSecurityPolicyMap a m (v ++ [s])
  = populateSample a (populateSecurityPolicyMap a m v) s.
Proof. unfold populateSecurityPolicyMap. by rewrite fold_left_app. Qed.

Lemma rateAt_writes_touched_some ws m key csp :
  writesSlot ws key csp → is_Some (rateAt (fold_left applyWrite ws m) key csp).
Proof.
  revert m. induction ws as [|w ws IH]; intros m Hw.
  - by apply Exists_nil in Hw.
  - simpl. destruct (decide (writesSlot ws key csp)) as [Hws|Hws]; [by apply IH|].
    rewrite rateAt_writes_untouched by done.
    apply Exists_cons in Hw as [Hhd|Htl]; [|done].
    unfold applyWrite. rewrite rateAt_setRate.
    destruct (decide _) as [_|Hn]; [by eexists|]. by destruct Hn.
Qed.

(** C2: for a series that carries all eleven grouping labels, processed by
    [populateSecurityPolicyMap] after any vector [v] on any map: when
    service-node injection is enabled and the destination does not resolve
    to the [service] kind, the loop makes exactly two [addSecurityPolicy]
    calls, (caller -> service node) then (service node -> destination);
    afterwards the map holds the series' value under its policy label for
    both keys and every other (key, label) is as the vector [v] left it.
    When injection is disabled or the destination is already of [service]
    kind, it makes exactly one (caller -> destination) call; the map holds
    the series' value under its policy label for that key and every other
    (key, label) is as [v] left it. *)
Theorem populateSecurityPolicyMap_injection a m v s
    sourceWlNs sourceWl sourceApp sourceVer destSvcNs destSvc
    destWlNs destWl destApp destVer csp :
  Metric s !! "source_workload_namespace" = Some sourceWlNs →
  Metric s !! "source_workload" = Some sourceWl →
  Metric s !! "source_app" = Some sourceApp →
  Metric s !! "source_version" = Some sourceVer →
  Metric s !! "destination_service_namespace" = Some destSvcNs →
  Metric s !! "destination_service_name" = Some destSvc →
  Metric s !! "destination_workload_namespace" = Some destWlNs →
  Metric s !! "destination_workload" = Some destWl →
  Metric s !! "destination_app" = Some destApp →
  Metric s !! "destination_version" = Some destVer →
  Metric s !! "connection_security_policy" = Some csp →
  (InjectServiceNodes a = true →
   snd (Id destSvcNs destSvc destWlNs destWl destApp destVer (GraphType a)) ≠ NodeTypeService →
   populateSecurityPolicyMap a m (v ++ [s])
   = addSecurityPolicy a
       (addSecurityPolicy a (populateSecurityPolicyMap a m v) csp (Value s)
          sourceWlNs "" sourceWl sourceApp sourceVer destSvcNs destSvc "" "" "" "")
       csp (Value s) destSvcNs destSvc "" "" "" destSvcNs destSvc destWlNs destWl destApp destVer
   ∧ rateAt (populateSecurityPolicyMap a m (v ++ [s]))
       (policyKey a sourceWlNs "" sourceWl sourceApp sourceVer destSvcNs destSvc "" "" "" "")
       csp
     = Some (Value s)
   ∧ rateAt (populateSecurityPolicyMap a m (v ++ [s]))
       (policyKey a destSvcNs destSvc "" "" "" destSvcNs destSvc destWlNs destWl destApp destVer)
       csp
     = Some (Value s)
   ∧ ∀ key' csp',
       ¬ (policyKey a sourceWlNs "" sourceWl sourceApp sourceVer destSvcNs destSvc "" "" "" ""
          = key' ∧ csp = csp') →
       ¬ (policyKey a destSvcNs destSvc "" "" "" destSvcNs destSvc destWlNs destWl destApp destVer
          = key' ∧ csp = csp') →
       rateAt (populateSecurityPolicyMap a m (v ++ [s])) key' csp'
       = rateAt (populateSecurityPolicyMap a m v) key' csp')
  ∧ (InjectServiceNodes a = false
     ∨ snd (Id destSvcNs destSvc destWlNs destWl destApp destVer (GraphType a)) = NodeTypeService →
     populateSecurityPolicyMap a m (v ++ [s])
     = addSecurityPolicy a (populateSecurityPolicyMap a m v) csp (Value s)
         sourceWlNs "" sourceWl sourceApp sourceVer destSvcNs destSvc destWlNs destWl destApp destVer
     ∧ rateAt (populateSecurityPolicyMap a m (v ++ [s]))
         (policyKey a sourceWlNs "" sourceWl sourceApp sourceVer
            destSvcNs destSvc destWlNs destWl destApp destVer)
         csp
       = Some (Value s)
     ∧ ∀ key' csp',
         ¬ (policyKey a sourceWlNs "" sourceWl sourceApp sourceVer
              destSvcNs destSvc destWlNs destWl destApp destVer
            = key' ∧ csp = csp') →
         rateAt (populateSecurityPolicyMap a m (v ++ [s])) key' csp'
         = rateAt (populateSecurityPolicyMap a m v) key' csp').
Proof.
  intros H1 H2 H3 H4 H5 H6 H7 H8 H9 H10 H11.
  assert (Hok : requiredLabelsOk (Metric s) = true).
  { apply requiredLabelsOk_true. intros k Hk. unfold requiredLabels in Hk.
    repeat (apply elem_of_cons in Hk as [->|Hk]; [by eexists|]).
    by apply elem_of_nil in Hk. }
  assert (HsvcOk : labelOk (Metric s) "destination_service_name" = true).
  { unfold labelOk. apply bool_decide_eq_true_2. by eexists. }
  rewrite populate_snoc.
  set (before := populateSecurityPolicyMap a m v).
  unfold populateSample; cbv zeta.
  rewrite Hok, HsvcOk. unfold label.
  rewrite H1, H2, H3, H4, H5, H6, H7, H8, H9, H10, H11; simpl.
  split.
  - intros -> Hty. apply String.eqb_neq in Hty. rewrite Hty; simpl.
    split; [done|]. rewrite !addSecurityPolicy_setRate.
    split; [|split].
    + rewrite rateAt_setRate. destruct (decide _) as [_|_]; [done|].
      rewrite rateAt_setRate. destruct (decide _) as [_|Hn]; [done|]. by destruct Hn.
    + rewrite rateAt_setRate. destruct (decide _) as [_|Hn]; [done|]. by destruct Hn.
    + intros key' csp' Hn1 Hn2.
      rewrite rateAt_setRate. destruct (decide _) as [Hy|_]; [by destruct (Hn2 Hy)|].
      rewrite rateAt_setRate. destruct (decide _) as [Hy|_]; [by destruct (Hn1 Hy)|].
      done.
  - intros Hcase.
    match goal with
    | |- ?X = _ ∧ _ =>
        assert (Heq : X = addSecurityPolicy a before csp (Value s)
                            sourceWlNs "" sourceWl sourceApp sourceVer
                            destSvcNs destSvc destWlNs destWl destApp destVer)
    end.
    { destruct Hcase as [->|Hty]; [done|].
      apply String.eqb_eq in Hty. rewrite Hty. by destruct (InjectServiceNodes a). }
    rewrite Heq. split; [done|]. rewrite addSecurityPolicy_setRate.
    split.
    + rewrite rateAt_setRate. destruct (decide _) as [_|Hn]; [done|]. by destruct Hn.
    + intros key' csp' Hn1.
      rewrite rateAt_setRate. destruct (decide _) as [Hy|_]; [by destruct (Hn1 Hy)|].
      done.
Qed.

(** C3: a second observation for the same key and policy label replaces the
    first (the stored rate is the later value, the map is the one the later
    observation alone produces).  [appendGraph] annotates the traffic map
    from an aggregated map in which, for every (key, label), the rate is the
    one the inbound query's vector gives when it gives one, and the one the
    outbound query's vector gives otherwise: the outbound vector is
    aggregated first and the inbound vector overwrites it. *)
Theorem inbound_overwrites_outbound a :
  (∀ m label v1 v2 sNs sSvc sWl sApp sVer dSvcNs dSvc dWlNs dWl dApp dVer,
     addSecurityPolicy a
       (addSecurityPolicy a m label v1 sNs sSvc sWl sApp sVer dSvcNs dSvc dWlNs dWl dApp dVer)
       label v2 sNs sSvc sWl sApp sVer dSvcNs dSvc dWlNs dWl dApp dVer
     = addSecurityPolicy a m label v2 sNs sSvc sWl sApp sVer dSvcNs dSvc dWlNs dWl dApp dVer
     ∧ rateAt
         (addSecurityPolicy a
            (addSecurityPolicy a m label v1 sNs sSvc sWl sApp sVer dSvcNs dSvc dWlNs dWl dApp dVer)
            label v2 sNs sSvc sWl sApp sVer dSvcNs dSvc dWlNs dWl dApp dVer)
         (policyKey a sNs sSvc sWl sApp sVer dSvcNs dSvc dWlNs dWl dApp dVer) label
       = Some v2)
  ∧ (∀ m outVector inVector key csp v,
       rateAt (populateSecurityPolicyMap a ∅ inVector) key csp = Some v →
       rateAt
         (populateSecurityPolicyMap a (populateSecurityPolicyMap a m outVector) inVector)
         key csp
       = Some v)
  ∧ (∀ (tm : TrafficMap) namespace client log,
       ∃ spm : SecurityPolicyMap,
         fst (appendGraph a tm namespace client log) = applySecurityPolicy tm spm
         ∧ ∀ key csp,
             rateAt spm key csp
             = match
                 rateAt
                   (populateSecurityPolicyMap a ∅
                      (promQuery (inboundQuery a namespace) (QueryTime a) client))
                   key csp
               with
               | Some v => Some v
               | None =>
                   rateAt
                     (populateSecurityPolicyMap a ∅
                        (promQuery (outboundQuery a namespace) (QueryTime a) client))
                     key csp
               end).
Proof.
  split; [|split].
  - intros. rewrite !addSecurityPolicy_setRate, setRate_overwrite.
    split; [done|]. rewrite rateAt_setRate.
    destruct (decide _) as [_|Hn]; [done|]. by destruct Hn.
  - intros m outVector inVector key csp v Hin.
    rewrite populate_writes in Hin.
    rewrite (populate_writes a _ inVector).
    destruct (decide (writesSlot (flat_map (sampleWrites a) inVector) key csp)) as [Hw|Hw].
    + by rewrite (rateAt_writes_touched _ _ ∅).
    + rewrite rateAt_writes_untouched in Hin by done.
      unfold rateAt in Hin. by rewrite lookup_empty in Hin.
  - intros tm namespace client log.
    set (outVector := promQuery (outboundQuery a namespace) (QueryTime a) client).
    set (inVector := promQuery (inboundQuery a namespace) (QueryTime a) client).
    exists (populateSecurityPolicyMap a (populateSecurityPolicyMap a ∅ outVector) inVector).
    split; [reflexivity|].
    intros key csp.
    rewrite (populate_writes a _ inVector), (populate_writes a ∅ inVector).
    destruct (decide (writesSlot (flat_map (sampleWrites a) inVector) key csp)) as [Hw|Hw].
    + rewrite (rateAt_writes_touched _ _ ∅) by done.
      destruct (rateAt_writes_touched_some _ ∅ _ _ Hw) as [x Hx]. by rewrite Hx.
    + rewrite !rateAt_writes_untouched by done.
      unfold rateAt at 2. by rewrite lookup_empty.
Qed.

(** C5: a series that lacks one of the eleven grouping labels is skipped:
    it leaves the aggregated map as it was, the rest of the vector is
    processed as if the series were not there, and so it changes no edge's
    annotation. *)
Theorem populate_skips_missing_label a m v1 v2 s k tm :
  k ∈ requiredLabels →
  Metric s !! k = None →
  populateSample a m s = m
  ∧ populateSecurityPolicyMap a m (v1 ++ s :: v2)
    = populateSecurityPolicyMap a m (v1 ++ v2)
  ∧ applySecurityPolicy tm (populateSecurityPolicyMap a m (v1 ++ s :: v2))
    = applySecurityPolicy tm (populateSecurityPolicyMap a m (v1 ++ v2)).
Proof.
  intros Hk Hm.
  assert (Hskip : ∀ m', populateSample a m' s = m').
  { intros m'. unfold populateSample; cbv zeta.
    by rewrite (requiredLabelsOk_false _ k). }
  assert (Heq : populateSecurityPolicyMap a m (v1 ++ s :: v2)
                = populateSecurityPolicyMap a m (v1 ++ v2)).
  { rewrite !populate_app. unfold populateSecurityPolicyMap at 1; simpl.
    by rewrite Hskip. }
  by rewrite Heq, Hskip.
Qed.

(** C10: aggregating the same vector twice gives the map aggregating it once
    gives. *)
Theorem populate_idempotent a m v :
  populateSecurityPolicyMap a (populateSecurityPolicyMap a m v) v
  = populateSecurityPolicyMap a m v.
Proof. rewrite !populate_writes. apply writes_idempotent. Qed.

(** ** The loop over the policy rates *)

Lemma fold_rateStep_other kvs acc :
  snd (fold_left rateStep kvs acc)
  = fold_left (fun x rate => (x + rate)%float)
      (snd <$> filter (fun kv : string * float => fst kv ≠ policyMTLS) kvs) (snd acc).
Proof.
  revert acc. induction kvs as [|[k r] kvs IH]; intros acc; simpl; [done|].
  rewrite IH. unfold rateStep; simpl.
  destruct (String.eqb_spec k policyMTLS) as [->|Hne].
  - by rewrite filter_cons_False by (simpl; intros Hn; by apply Hn).
  - by rewrite filter_cons_True by done.
Qed.

Lemma fold_rateStep_mtls_absent kvs acc :
  policyMTLS ∉ kvs.*1 → fst (fold_left rateStep kvs acc) = fst acc.
Proof.
  revert acc. induction kvs as [|[k r] kvs IH]; intros acc Hno; simpl; [done|].
  simpl in Hno. apply not_elem_of_cons in Hno as [Hk Hno].
  rewrite IH by done. unfold rateStep; simpl.
  by destruct (String.eqb_spec k policyMTLS) as [->|].
Qed.

Lemma fold_rateStep_mtls_present kvs acc r :
  NoDup kvs.*1 → (policyMTLS, r) ∈ kvs → fst (fold_left rateStep kvs acc) = r.
Proof.
  revert acc. induction kvs as [|[k r'] kvs IH]; intros acc Hnd Hin.
  - by apply elem_of_nil in Hin.
  - simpl in *. apply NoDup_cons in Hnd as [Hk Hnd].
    apply elem_of_cons in Hin as [Heq|Hin].
    + injection Heq as <- <-.
      rewrite fold_rateStep_mtls_absent by done.
      unfold rateStep; simpl. by rewrite ?String.eqb_refl.
    + by apply IH.
Qed.

Lemma sumRates_rangeOrder (policyRates : PolicyRates) :
  sumRates (rangeOrder policyRates)
  = (mtlsRate policyRates, otherRate (rangeOrder policyRates)).
Proof using Type rangeOrder_perm.
  pose proof (rangeOrder_perm policyRates) as Hperm.
  unfold sumRates, mtlsRate, otherRate.
  rewrite (surjective_pairing (fold_left _ _ _)).
  f_equal; [|by rewrite fold_rateStep_other].
  destruct (policyRates !! policyMTLS) as [r|] eqn:Hl; simpl.
  - apply fold_rateStep_mtls_present.
    + rewrite Hperm. apply NoDup_fst_map_to_list.
    + rewrite Hperm. by apply elem_of_map_to_list.
  - rewrite fold_rateStep_mtls_absent; [done|].
    rewrite Hperm. intros Hin.
    apply list_elem_of_fmap in Hin as ([k r] & Hk & Hin). simpl in Hk; subst k.
    apply elem_of_map_to_list in Hin. congruence.
Qed.

Lemma applyEdge_found spm e policyRates :
  spm !! edgeKey (ID (Source e)) (ID (Dest e)) = Some policyRates →
  applyEdge spm e
  = {| Source := Source e; Dest := Dest e;
       Metadata :=
         <[IsMTLS := MetaFloat (mtlsPercentage (mtlsRate policyRates)
                                  (otherRate (rangeOrder policyRates)))]> (Metadata e) |}.
Proof using Type rangeOrder_perm.
  intros Hl. unfold applyEdge; cbv zeta. rewrite Hl.
  by rewrite sumRates_rangeOrder.
Qed.

Lemma applyEdge_absent spm e :
  spm !! edgeKey (ID (Source e)) (ID (Dest e)) = None → applyEdge spm e = e.
Proof. intros Hl. unfold applyEdge; cbv zeta. by rewrite Hl. Qed.

Lemma applyEdge_ends spm e :
  Source (applyEdge spm e) = Source e ∧ Dest (applyEdge spm e) = Dest e.
Proof.
  unfold applyEdge; cbv zeta.
  destruct (spm !! _); [|done]. by destruct (sumRates _).
Qed.

Lemma applyEdge_frame spm e k :
  k ≠ IsMTLS → Metadata (applyEdge spm e) !! k = Metadata e !! k.
Proof.
  intros Hk. unfold applyEdge; cbv zeta.
  destruct (spm !! _); [|done]. destruct (sumRates _); simpl.
  by rewrite lookup_insert_ne.
Qed.

Lemma applySecurityPolicy_edge tm spm n node i e :
  tm !! n = Some node → Edges node !! i = Some e →
  applySecurityPolicy tm spm !! n = Some (applyNode spm node)
  ∧ Edges (applyNode spm node) !! i = Some (applyEdge spm e).
Proof.
  intros Hn He. unfold applySecurityPolicy.
  rewrite lookup_fmap, Hn; simpl. split; [done|].
  by rewrite list_lookup_fmap, He.
Qed.

(** ** Properties of [applySecurityPolicy] *)

Lemma otherRate_perm_singleton kvs k r (rest : list (string * float)) :
  kvs ≡ₚ rest →
  filter (fun kv : string * float => fst kv ≠ policyMTLS) rest = [(k, r)] →
  otherRate kvs = (0 + r)%float.
Proof.
  intros Hperm Hrest. unfold otherRate.
  assert (Hf : filter (fun kv : string * float => fst kv ≠ policyMTLS) kvs = [(k, r)]).
  { apply Permutation_singleton_r. by rewrite Hperm, Hrest. }
  by rewrite Hf.
Qed.

Lemma otherRate_perm_nil kvs (rest : list (string * float)) :
  kvs ≡ₚ rest →
  filter (fun kv : string * float => fst kv ≠ policyMTLS) rest = [] →
  otherRate kvs = 0%float.
Proof.
  intros Hperm Hrest. unfold otherRate.
  assert (Hf : filter (fun kv : string * float => fst kv ≠ policyMTLS) kvs = []).
  { apply Permutation_nil_r. by rewrite Hperm, Hrest. }
  by rewrite Hf.
Qed.

(** C1: an edge of the traffic map whose key ["<source-ID> <dest-ID>"] is in
    the aggregated map gets, under the mTLS metadata key, the value
    [mtls / (mtls + other) * 100], where [mtls] is the rate under
    ["mutual_tls"] (0 when absent) and [other] the sum of the rates under the
    other labels; rates [{mutual_tls: 8, plaintext: 2}] give 80 and
    [{mutual_tls: 5}] gives 100. *)
Theorem applySecurityPolicy_percentage :
  (∀ (tm : TrafficMap) (spm : SecurityPolicyMap) n node i e policyRates,
     tm !! n = Some node →
     Edges node !! i = Some e →
     spm !! edgeKey (ID (Source e)) (ID (Dest e)) = Some policyRates →
     ∃ node' e',
       applySecurityPolicy tm spm !! n = Some node'
       ∧ Edges node' !! i = Some e'
       ∧ Metadata e' !! IsMTLS
         = Some (MetaFloat (mtlsRate policyRates
                            / (mtlsRate policyRates + otherRate (rangeOrder policyRates))
                            * 100)%float))
  ∧ (∀ (spm : SecurityPolicyMap) e,
       spm !! edgeKey (ID (Source e)) (ID (Dest e))
       = Some {[ "mutual_tls" := 8%float; "plaintext" := 2%float ]} →
       Metadata (applyEdge spm e) !! IsMTLS = Some (MetaFloat 80%float))
  ∧ (∀ (spm : SecurityPolicyMap) e,
       spm !! edgeKey (ID (Source e)) (ID (Dest e)) = Some {[ "mutual_tls" := 5%float ]} →
       Metadata (applyEdge spm e) !! IsMTLS = Some (MetaFloat 100%float)).
Proof using Type rangeOrder_perm.
  split; [|split].
  - intros tm spm n node i e policyRates Hn He Hl.
    destruct (applySecurityPolicy_edge tm spm n node i e Hn He) as [Hn' He'].
    exists (applyNode spm node), (applyEdge spm e).
    split; [done|]. split; [done|].
    rewrite (applyEdge_found _ _ _ Hl); simpl.
    by rewrite lookup_insert_eq.
  - intros spm e Hl. rewrite (applyEdge_found _ _ _ Hl); simpl.
    rewrite lookup_insert_eq. do 2 f_equal.
    rewrite (otherRate_perm_singleton _ "plaintext" 2%float
               [("mutual_tls", 8%float); ("plaintext", 2%float)]).
    + reflexivity.
    + rewrite rangeOrder_perm.
      rewrite map_to_list_insert by done.
      by rewrite map_to_list_singleton.
    + reflexivity.
  - intros spm e Hl. rewrite (applyEdge_found _ _ _ Hl); simpl.
    rewrite lookup_insert_eq. do 2 f_equal.
    rewrite (otherRate_perm_nil _ [("mutual_tls", 5%float)]).
    + reflexivity.
    + by rewrite rangeOrder_perm, map_to_list_singleton.
    + reflexivity.
Qed.

(** C4: annotation creates and removes no node and no edge: the node IDs of
    the traffic map, each node's ID and the (source-ID, dest-ID) pairs of its
    edges, in order, are unchanged; an edge whose key is not in the aggregated
    map is left exactly as it was; and on every edge the metadata under every
    key other than the mTLS key is unchanged. *)
Theorem applySecurityPolicy_frame (tm : TrafficMap) (spm : SecurityPolicyMap) :
  dom (applySecurityPolicy tm spm) = dom tm
  ∧ (∀ n, applySecurityPolicy tm spm !! n = None ↔ tm !! n = None)
  ∧ (∀ n node,
       tm !! n = Some node →
       ∃ node',
         applySecurityPolicy tm spm !! n = Some node'
         ∧ NodeID node' = NodeID node
         ∧ length (Edges node') = length (Edges node)
         ∧ (fun e => (ID (Source e), ID (Dest e))) <$> Edges node'
           = (fun e => (ID (Source e), ID (Dest e))) <$> Edges node
         ∧ ∀ i e,
             Edges node !! i = Some e →
             ∃ e',
               Edges node' !! i = Some e'
               ∧ Source e' = Source e ∧ Dest e' = Dest e
               ∧ (spm !! edgeKey (ID (Source e)) (ID (Dest e)) = None → e' = e)
               ∧ (∀ k, k ≠ IsMTLS → Metadata e' !! k = Metadata e !! k)).
Proof.
  split; [|split].
  - unfold applySecurityPolicy. apply dom_fmap_L.
  - intros n. unfold applySecurityPolicy. rewrite lookup_fmap.
    apply fmap_None.
  - intros n node Hn. exists (applyNode spm node).
    unfold applySecurityPolicy. rewrite lookup_fmap, Hn; simpl.
    split; [done|]. split; [done|].
    split; [apply length_fmap|].
    split.
    + rewrite <- list_fmap_compose. apply list_fmap_ext.
      intros i e _; simpl.
      destruct (applyEdge_ends spm e) as [-> ->]. done.
    + intros i e He. exists (applyEdge spm e).
      rewrite list_lookup_fmap, He; simpl.
      destruct (applyEdge_ends spm e) as [Hs Hd].
      repeat split; try done.
      * apply applyEdge_absent.
      * intros k Hk. by apply applyEdge_frame.
Qed.

(** C7: the division is not guarded: when every rate stored for an edge's
    key is zero, [applySecurityPolicy] divides zero by zero and writes the
    result, which is not a number, under the mTLS key; and such content is
    what [populateSecurityPolicyMap] builds from a series whose value is
    zero. *)
Theorem applySecurityPolicy_zero_rates :
  (∀ (spm : SecurityPolicyMap) e policyRates,
     spm !! edgeKey (ID (Source e)) (ID (Dest e)) = Some policyRates →
     (∀ k r, policyRates !! k = Some r → r = 0%float) →
     Metadata (applyEdge spm e) !! IsMTLS = Some (MetaFloat (0 / (0 + 0) * 100)%float)
     ∧ (0 / (0 + 0) * 100)%float = nan)
  ∧ (∀ a s e,
       requiredLabelsOk (Metric s) = true →
       InjectServiceNodes a = false →
       Value s = 0%float →
       edgeKey (ID (Source e)) (ID (Dest e))
       = policyKey a
           (label (Metric s) "source_workload_namespace") ""
           (label (Metric s) "source_workload") (label (Metric s) "source_app")
           (label (Metric s) "source_version")
           (label (Metric s) "destination_service_namespace")
           (label (Metric s) "destination_service_name")
           (label (Metric s) "destination_workload_namespace")
           (label (Metric s) "destination_workload") (label (Metric s) "destination_app")
           (label (Metric s) "destination_version") →
       Metadata (applyEdge (populateSecurityPolicyMap a ∅ [s]) e) !! IsMTLS
       = Some (MetaFloat nan)).
Proof using Type rangeOrder_perm.
  assert (Hzero : ∀ (spm : SecurityPolicyMap) e policyRates,
     spm !! edgeKey (ID (Source e)) (ID (Dest e)) = Some policyRates →
     (∀ k r, policyRates !! k = Some r → r = 0%float) →
     Metadata (applyEdge spm e) !! IsMTLS = Some (MetaFloat (0 / (0 + 0) * 100)%float)).
  { intros spm e policyRates Hl Hz.
    rewrite (applyEdge_found _ _ _ Hl); simpl. rewrite lookup_insert_eq.
    do 2 f_equal. unfold mtlsPercentage.
    assert (Hm : mtlsRate policyRates = 0%float).
    { unfold mtlsRate. destruct (policyRates !! policyMTLS) eqn:E; [|done].
      simpl. by apply (Hz policyMTLS). }
    assert (Ho : otherRate (rangeOrder policyRates) = 0%float).
    { unfold otherRate.
      assert (Hall : Forall (fun r => r = 0%float)
                (snd <$> filter (fun kv : string * float => fst kv ≠ policyMTLS)
                           (rangeOrder policyRates))).
      { apply Forall_fmap, Forall_forall. intros [k r] Hin; simpl.
        apply list_elem_of_filter in Hin as [_ Hin].
        rewrite rangeOrder_perm in Hin.
        apply elem_of_map_to_list in Hin. by apply (Hz k). }
      induction Hall as [|r rs -> _ IH]; simpl; [done|]. exact IH. }
    by rewrite Hm, Ho. }
  split.
  - intros spm e policyRates Hl Hz. split; [by apply (Hzero spm e policyRates)|reflexivity].
  - intros a s e Hok Hinj Hval Hkey.
    apply (Hzero _ _ {[ label (Metric s) "connection_security_policy" := 0%float ]}).
    + rewrite Hkey. unfold populateSecurityPolicyMap; simpl.
      unfold populateSample; cbv zeta. rewrite Hok, Hinj, Hval; simpl.
      rewrite addSecurityPolicy_setRate. unfold setRate.
      rewrite lookup_insert_eq, lookup_empty; simpl.
      by rewrite insert_empty.
    + intros k r Hkr. apply lookup_singleton_Some in Hkr as [_ <-]. done.
Qed.

(** ** The query strings *)

Lemma hasChar_app c s1 s2 :
  hasChar c (s1 +:+ s2) = hasChar c s1 || hasChar c s2.
Proof.
  induction s1 as [|c' s1 IH]; simpl; [done|].
  by rewrite IH, orb_assoc.
Qed.

Lemma hasChar_string_of_uint d :
  hasChar "~" (NilEmpty.string_of_uint d) = false.
Proof. induction d; simpl; done. Qed.

Lemma hasChar_fmtInt n : hasChar "~" (fmtInt n) = false.
Proof.
  unfold fmtInt, NilZero.string_of_int, NilZero.string_of_uint.
  destruct (Z.to_int n) as [d|d]; destruct d; simpl;
    try done; apply hasChar_string_of_uint.
Qed.

(** C8: with no excluded infrastructure namespace the inbound query has no
    exclusion clause: its label matchers end with the source-namespace
    matcher, and (the namespace name holding no [~]) no regex matcher occurs
    in it at all; with a non-empty list the query carries, after the
    source-namespace matcher, the negative regex matcher on
    [destination_service_namespace] whose pattern is the excluded names
    joined by ["|"]. *)
Theorem inboundQuery_exclusion a namespace :
  (getIstioNamespaces (Namespaces a) = [] →
   destinationWorkloadNamespaceQuery a = ""
   ∧ inboundQuery a namespace
     = "sum(rate(istio_requests_total{reporter=" +:+ dq +:+ "destination" +:+ dq
       +:+ ",source_workload_namespace=" +:+ dq +:+ namespace +:+ dq
       +:+ "}["
       +:+ fmtInt (intSeconds
                     (Duration (default {| Duration := 0 |} (Namespaces a !! namespace))))
       +:+ "s]) > 0) by (" +:+ groupBy +:+ ")"
   ∧ (hasChar "~" namespace = false → hasChar "~" (inboundQuery a namespace) = false))
  ∧ (getIstioNamespaces (Namespaces a) ≠ [] →
     destinationWorkloadNamespaceQuery a
     = ",destination_service_namespace!~" +:+ dq
       +:+ String.concat "|" (getIstioNamespaces (Namespaces a)) +:+ dq
     ∧ inboundQuery a namespace
       = "sum(rate(istio_requests_total{reporter=" +:+ dq +:+ "destination" +:+ dq
         +:+ ",source_workload_namespace=" +:+ dq +:+ namespace +:+ dq
         +:+ (",destination_service_namespace!~" +:+ dq
              +:+ String.concat "|" (getIstioNamespaces (Namespaces a)) +:+ dq)
         +:+ "}["
         +:+ fmtInt (intSeconds
                       (Duration (default {| Duration := 0 |} (Namespaces a !! namespace))))
         +:+ "s]) > 0) by (" +:+ groupBy +:+ ")").
Proof.
  split.
  - intros Hnil.
    assert (Hclause : destinationWorkloadNamespaceQuery a = "").
    { unfold destinationWorkloadNamespaceQuery; cbv zeta. by rewrite Hnil. }
    split; [done|].
    unfold inboundQuery; cbv zeta. rewrite Hclause. split; [done|].
    intros Hns. simpl.
    rewrite !hasChar_app, Hns, hasChar_fmtInt. reflexivity.
  - intros Hne.
    assert (Hclause : destinationWorkloadNamespaceQuery a
                      = ",destination_service_namespace!~" +:+ dq
                        +:+ String.concat "|" (getIstioNamespaces (Namespaces a)) +:+ dq).
    { unfold destinationWorkloadNamespaceQuery; cbv zeta.
      destruct (getIstioNamespaces (Namespaces a)); [done|].
      rewrite decide_True; [done|simpl; lia]. }
    split; [done|].
    unfold inboundQuery; cbv zeta. by rewrite Hclause.
Qed.

(** ** [AppendGraph] *)

(** C6: on an empty traffic map [AppendGraph] returns at once: no query is
    issued, the metrics client handle is not initialised, and the traffic map
    and the rest of the state are as they were. *)
Theorem AppendGraph_empty a w namespaceInfo :
  trafficMap w = ∅ → AppendGraph a w namespaceInfo = Done w.
Proof.
  intros Hempty. unfold AppendGraph.
  rewrite decide_True; [done|]. by rewrite Hempty, map_size_empty.
Qed.

(** C9, within the guard on the traffic map and the client set-up: an
    invocation of [AppendGraph] on a non-empty traffic map, with a metrics
    client already in the global info or successfully constructed, issues
    exactly two queries, the outbound one and then the inbound one, both at
    the appender's query instant; the client is kept in the global info and
    the traffic map is the annotated one. *)
Theorem AppendGraph_two_queries a w namespaceInfo client :
  trafficMap w ≠ ∅ →
  PromClient (globalInfo w) = Some client
  ∨ (PromClient (globalInfo w) = None ∧ NewClient = inr client) →
  ∃ w',
    AppendGraph a w namespaceInfo = Done w'
    ∧ queries w'
      = queries w
        ++ [ {| qExpr := outboundQuery a (Namespace namespaceInfo); qTime := QueryTime a |};
             {| qExpr := inboundQuery a (Namespace namespaceInfo); qTime := QueryTime a |} ]
    ∧ PromClient (globalInfo w') = Some client
    ∧ trafficMap w'
      = applySecurityPolicy (trafficMap w)
          (populateSecurityPolicyMap a
             (populateSecurityPolicyMap a ∅
                (promQuery (outboundQuery a (Namespace namespaceInfo)) (QueryTime a) client))
             (promQuery (inboundQuery a (Namespace namespaceInfo)) (QueryTime a) client)).
Proof.
  intros Hne Hclient. unfold AppendGraph.
  rewrite decide_False by (intros Hs; by apply map_size_empty_iff in Hs).
  unfold appendGraph; cbv zeta.
  destruct Hclient as [Hc|[Hc Hnew]]; rewrite Hc; [|rewrite Hnew];
    (eexists; split; [reflexivity|]; simpl;
     split; [by rewrite <- app_assoc|]; split; [|done]).
  - by rewrite Hc.
  - done.
Qed.

(** ** Further properties of the aggregation *)

(** The three keys [populateSecurityPolicyMap] can assign for a series:
    caller to destination, caller to the injected service node, and the
    injected service node to the destination; and the kind [graph.Id] gives
    the destination. *)
Definition callerKey (a : SecurityPolicyAppender) (s : Sample) : string :=
  let m := Metric s in
  policyKey a (label m "source_workload_namespace") "" (label m "source_workload")
    (label m "source_app") (label m "source_version")
    (label m "destination_service_namespace") (label m "destination_service_name")
    (label m "destination_workload_namespace") (label m "destination_workload")
    (label m "destination_app") (label m "destination_version").

Definition callerToServiceKey (a : SecurityPolicyAppender) (s : Sample) : string :=
  let m := Metric s in
  policyKey a (label m "source_workload_namespace") "" (label m "source_workload")
    (label m "source_app") (label m "source_version")
    (label m "destination_service_namespace") (label m "destination_service_name")
    "" "" "" "".

Definition serviceToDestKey (a : SecurityPolicyAppender) (s : Sample) : string :=
  let m := Metric s in
  policyKey a (label m "destination_service_namespace") (label m "destination_service_name")
    "" "" ""
    (label m "destination_service_namespace") (label m "destination_service_name")
    (label m "destination_workload_namespace") (label m "destination_workload")
    (label m "destination_app") (label m "destination_version").

Definition destKind (a : SecurityPolicyAppender) (s : Sample) : string :=
  let m := Metric s in
  snd (Id (label m "destination_service_namespace") (label m "destination_service_name")
         (label m "destination_workload_namespace") (label m "destination_workload")
         (label m "destination_app") (label m "destination_version") (GraphType a)).

(** Whether a series is split in two observations. *)
Definition injects (a : SecurityPolicyAppender) (s : Sample) : bool :=
  InjectServiceNodes a && negb (String.eqb (destKind a s) NodeTypeService).

Lemma labelOk_of_required m k :
  k ∈ requiredLabels → requiredLabelsOk m = true → labelOk m k = true.
Proof.
  intros Hk Hok.
  destruct (labelOk m k) eqn:Hl; [done|].
  unfold labelOk in Hl. apply bool_decide_eq_false_1 in Hl.
  rewrite (requiredLabelsOk_false m k) in Hok; [done|done|].
  destruct (m !! k) eqn:E; [|done]. exfalso. apply Hl. by eexists.
Qed.

Lemma sampleWrites_valid a s :
  requiredLabelsOk (Metric s) = true →
  sampleWrites a s
  = if injects a s
    then [ {| wKey := callerToServiceKey a s;
              wLabel := label (Metric s) "connection_security_policy";
              wVal := Value s |};
           {| wKey := serviceToDestKey a s;
              wLabel := label (Metric s) "connection_security_policy";
              wVal := Value s |} ]
    else [ {| wKey := callerKey a s;
              wLabel := label (Metric s) "connection_security_policy";
              wVal := Value s |} ].
Proof.
  intros Hok. unfold sampleWrites, injects, destKind; cbv zeta.
  rewrite Hok; simpl.
  rewrite (labelOk_of_required _ "destination_service_name"); [done| |done].
  unfold requiredLabels.
  repeat first [apply list_elem_of_here | apply list_elem_of_further].
Qed.

Lemma sampleWrites_invalid a s :
  requiredLabelsOk (Metric s) = false → sampleWrites a s = [].
Proof. intros Hok. unfold sampleWrites; cbv zeta. by rewrite Hok. Qed.

Lemma sampleWrites_elem a s w :
  w ∈ sampleWrites a s →
  requiredLabelsOk (Metric s) = true
  ∧ wLabel w = label (Metric s) "connection_security_policy"
  ∧ wVal w = Value s
  ∧ (wKey w = callerKey a s ∨ wKey w = callerToServiceKey a s
     ∨ wKey w = serviceToDestKey a s).
Proof.
  destruct (requiredLabelsOk (Metric s)) eqn:Hok.
  - rewrite sampleWrites_valid by done.
    destruct (injects a s); intros Hin.
    + apply elem_of_cons in Hin as [->|Hin];
        [simpl; repeat split; try done; right; by left|].
      apply elem_of_cons in Hin as [->|Hin];
        [simpl; repeat split; try done; right; by right|].
      by apply elem_of_nil in Hin.
    + apply elem_of_cons in Hin as [->|Hin];
        [simpl; repeat split; try done; by left|].
      by apply elem_of_nil in Hin.
  - rewrite sampleWrites_invalid by done. intros Hin. by apply elem_of_nil in Hin.
Qed.

Lemma rateAt_writes_origin ws m key csp x :
  rateAt (fold_left applyWrite ws m) key csp = Some x →
  rateAt m key csp = Some x
  ∨ ∃ w, w ∈ ws ∧ wKey w = key ∧ wLabel w = csp ∧ wVal w = x.
Proof.
  revert m. induction ws as [|w ws IH]; intros m Hr; simpl in Hr; [by left|].
  apply IH in Hr as [Hr|(w' & Hin & ? & ? & ?)].
  - unfold applyWrite in Hr. rewrite rateAt_setRate in Hr.
    destruct (decide _) as [[Hk Hl]|_]; [|by left].
    right. exists w. injection Hr as <-. split; [apply list_elem_of_here|done].
  - right. exists w'. split; [by apply list_elem_of_further|done].
Qed.

Lemma rateAt_writes_last ws w m :
  rateAt (fold_left applyWrite (ws ++ [w]) m) (wKey w) (wLabel w) = Some (wVal w).
Proof.
  rewrite fold_left_app; simpl. unfold applyWrite. rewrite rateAt_setRate.
  destruct (decide _) as [_|Hn]; [done|]. by destruct Hn.
Qed.

Lemma rateAt_writes_kept ws m key csp :
  is_Some (rateAt m key csp) → is_Some (rateAt (fold_left applyWrite ws m) key csp).
Proof.
  revert m. induction ws as [|w ws IH]; intros m Hs; simpl; [done|].
  apply IH. unfold applyWrite. rewrite rateAt_setRate.
  destruct (decide _); [by eexists|done].
Qed.

Lemma lookup_writes_kept ws (m : SecurityPolicyMap) key :
  is_Some (m !! key) → is_Some (fold_left applyWrite ws m !! key).
Proof.
  revert m. induction ws as [|w ws IH]; intros m Hs; simpl; [done|].
  apply IH. unfold applyWrite, setRate.
  destruct (decide (wKey w = key)) as [->|Hne].
  - rewrite lookup_insert_eq. by eexists.
  - by rewrite lookup_insert_ne.
Qed.

Lemma writes_nonempty ws (m : SecurityPolicyMap) :
  (∀ key (rates : PolicyRates), m !! key = Some rates → rates ≠ ∅) →
  ∀ key (rates : PolicyRates),
    fold_left applyWrite ws m !! key = Some rates → rates ≠ ∅.
Proof.
  revert m. induction ws as [|w ws IH]; intros m Hm; simpl; [done|].
  apply IH. intros key rates. unfold applyWrite, setRate.
  destruct (decide (wKey w = key)) as [->|Hne].
  - rewrite lookup_insert_eq. intros [= <-]. apply insert_non_empty.
  - rewrite lookup_insert_ne by done. apply Hm.
Qed.

Lemma writes_permutation ws ws' m :
  ws ≡ₚ ws' →
  NoDup ((fun w => (wKey w, wLabel w)) <$> ws) →
  fold_left applyWrite ws m = fold_left applyWrite ws' m.
Proof.
  intros Hperm. revert m.
  induction Hperm as [|w ws ws' Hp IH|w1 w2 ws|ws1 ws2 ws3 Hp1 IH1 Hp2 IH2];
    intros m Hnd.
  - done.
  - simpl. apply IH. simpl in Hnd. by apply NoDup_cons in Hnd as [_ ?].
  - simpl. f_equal. unfold applyWrite.
    simpl in Hnd. apply NoDup_cons in Hnd as [Hnin _].
    apply setRate_commute. intros [Hk Hl]. apply Hnin.
    rewrite Hk, Hl. apply list_elem_of_here.
  - rewrite IH1 by done. apply IH2. by rewrite <- Hp1.
Qed.

Lemma append_nil_l (t : string) : "" +:+ t = t.
Proof. reflexivity. Qed.

Lemma append_cons_l c (s t : string) : String c s +:+ t = String c (s +:+ t).
Proof. reflexivity. Qed.

Lemma edgeKey_split s1 d1 s2 d2 :
  hasChar " " s1 = false → hasChar " " s2 = false →
  edgeKey s1 d1 = edgeKey s2 d2 → s1 = s2 ∧ d1 = d2.
Proof.
  unfold edgeKey. revert s2.
  induction s1 as [|c1 s1 IH]; intros [|c2 s2] H1 H2 Heq; simpl in H1, H2;
    rewrite ?append_cons_l, ?append_nil_l in Heq.
  - by injection Heq as ->.
  - injection Heq as Hc _. subst c2. vm_compute in H2. discriminate H2.
  - injection Heq as Hc _. subst c1. vm_compute in H1. discriminate H1.
  - injection Heq as -> Heq.
    apply orb_false_iff in H1 as [_ H1]. apply orb_false_iff in H2 as [_ H2].
    destruct (IH s2 H1 H2 Heq) as [-> ->]. done.
Qed.

Lemma applyNode_unmatched spm node :
  (∀ e, e ∈ Edges node → spm !! edgeKey (ID (Source e)) (ID (Dest e)) = None) →
  applyNode spm node = node.
Proof.
  intros Hno. destruct node as [nid edges]; unfold applyNode; simpl in *.
  f_equal. rewrite <- (list_fmap_id edges) at 2.
  apply list_fmap_ext. intros i e He; simpl.
  apply applyEdge_absent, Hno. by apply list_elem_of_lookup_2 in He.
Qed.

Lemma applyNode_pairs spm node :
  NodeID (applyNode spm node) = NodeID node
  ∧ (fun e => (ID (Source e), ID (Dest e))) <$> Edges (applyNode spm node)
    = (fun e => (ID (Source e), ID (Dest e))) <$> Edges node.
Proof.
  split; [done|]. unfold applyNode; simpl.
  rewrite <- list_fmap_compose. apply list_fmap_ext.
  intros i e _; simpl. by destruct (applyEdge_ends spm e) as [-> ->].
Qed.

Lemma populate_all_malformed a m v :
  Forall (fun s => requiredLabelsOk (Metric s) = false) v →
  populateSecurityPolicyMap a m v = m.
Proof.
  unfold populateSecurityPolicyMap.
  induction 1 as [|s v Hs _ IH]; simpl; [done|].
  unfold populateSample at 2; cbv zeta. by rewrite Hs.
Qed.

(** X1: the composite key separates its two IDs as long as the source IDs
    hold no space: equal keys then come from equal (source, destination)
    pairs.  With a space in an ID two different pairs share a key. *)
Theorem edgeKey_injective :
  (∀ s1 d1 s2 d2,
     hasChar " " s1 = false → hasChar " " s2 = false →
     edgeKey s1 d1 = edgeKey s2 d2 → s1 = s2 ∧ d1 = d2)
  ∧ edgeKey "a b" "c" = edgeKey "a" "b c".
Proof. split; [exact edgeKey_split|reflexivity]. Qed.


(** X3: aggregation never leaves a key with an empty rate map: if every key
    of the map has at least one rate, so has every key after
    [populateSecurityPolicyMap]; in particular when starting from the empty
    map. *)
Theorem populate_rates_nonempty a (m : SecurityPolicyMap) v :
  (∀ key (rates : PolicyRates), m !! key = Some rates → rates ≠ ∅) →
  ∀ key (rates : PolicyRates),
    populateSecurityPolicyMap a m v !! key = Some rates → rates ≠ ∅.
Proof. rewrite populate_writes. apply writes_nonempty. Qed.

(** X4: every rate in the aggregated map either was there before or is the
    value of a series of the vector that carries all labels, stored under
    that series' policy label and under one of the three keys the series
    can address. *)
Theorem populate_rate_origin a m v key csp x :
  rateAt (populateSecurityPolicyMap a m v) key csp = Some x →
  rateAt m key csp = Some x
  ∨ ∃ s,
      s ∈ v
      ∧ requiredLabelsOk (Metric s) = true
      ∧ csp = label (Metric s) "connection_security_policy"
      ∧ x = Value s
      ∧ (key = callerKey a s ∨ key = callerToServiceKey a s
         ∨ key = serviceToDestKey a s).
Proof.
  rewrite populate_writes. intros Hr.
  apply rateAt_writes_origin in Hr as [Hr|(w & Hin & Hk & Hl & Hv)]; [by left|].
  right. apply list_elem_of_In, in_flat_map in Hin as (s & Hs & Hw).
  apply list_elem_of_In in Hs, Hw.
  destruct (sampleWrites_elem a s w Hw) as (Hok & Hl' & Hv' & Hk').
  exists s. rewrite <- Hk, <- Hl, <- Hv. done.
Qed.

(** X5: aggregation removes nothing: a key of the map is still a key
    afterwards, and a (key, label) that had a rate still has one. *)
Theorem populate_keeps_entries a (m : SecurityPolicyMap) v key :
  is_Some (m !! key) →
  is_Some (populateSecurityPolicyMap a m v !! key)
  ∧ ∀ csp,
      is_Some (rateAt m key csp) →
      is_Some (rateAt (populateSecurityPolicyMap a m v) key csp).
Proof.
  intros Hk. rewrite populate_writes. split.
  - by apply lookup_writes_kept.
  - intros csp. apply rateAt_writes_kept.
Qed.

(** X6: the last series of a vector is always reflected: if it carries all
    labels, then after aggregation its value is the rate under its policy
    label for the caller-to-destination key (when it is not split), or for
    both the caller-to-service and the service-to-destination key (when it
    is split). *)
Theorem populate_last_series_wins a m v s :
  requiredLabelsOk (Metric s) = true →
  (injects a s = false →
   rateAt (populateSecurityPolicyMap a m (v ++ [s])) (callerKey a s)
     (label (Metric s) "connection_security_policy")
   = Some (Value s))
  ∧ (injects a s = true →
     rateAt (populateSecurityPolicyMap a m (v ++ [s])) (callerToServiceKey a s)
       (label (Metric s) "connection_security_policy")
     = Some (Value s)
     ∧ rateAt (populateSecurityPolicyMap a m (v ++ [s])) (serviceToDestKey a s)
         (label (Metric s) "connection_security_policy")
       = Some (Value s)).
Proof.
  intros Hok. rewrite populate_writes, flat_map_app; simpl.
  rewrite app_nil_r, (sampleWrites_valid a s Hok).
  split; intros Hinj; rewrite Hinj.
  - apply (rateAt_writes_last _
             {| wKey := callerKey a s;
                wLabel := label (Metric s) "connection_security_policy";
                wVal := Value s |}).
  - rewrite fold_left_app; simpl. unfold applyWrite; simpl.
    split.
    + rewrite rateAt_setRate. destruct (decide _) as [_|_]; [done|].
      rewrite rateAt_setRate. destruct (decide _) as [_|Hn]; [done|]. by destruct Hn.
    + rewrite rateAt_setRate. destruct (decide _) as [_|Hn]; [done|]. by destruct Hn.
Qed.

(** X7: when no two observations of a vector address the same (key, label),
    the aggregated map does not depend on the order of the series. *)
Theorem populate_permutation a m v v' :
  v ≡ₚ v' →
  NoDup ((fun w => (wKey w, wLabel w)) <$> flat_map (sampleWrites a) v) →
  populateSecurityPolicyMap a m v = populateSecurityPolicyMap a m v'.
Proof.
  intros Hperm Hnd. rewrite !populate_writes.
  apply writes_permutation; [|done].
  by apply Permutation_flat_map.
Qed.

(** X8: when no edge of the traffic map has its key in the aggregated map,
    [applySecurityPolicy] returns the traffic map as it is. *)
Theorem applySecurityPolicy_no_match (tm : TrafficMap) (spm : SecurityPolicyMap) :
  (∀ n node e,
     tm !! n = Some node → e ∈ Edges node →
     spm !! edgeKey (ID (Source e)) (ID (Dest e)) = None) →
  applySecurityPolicy tm spm = tm.
Proof.
  intros Hno. unfold applySecurityPolicy. apply map_eq. intros n.
  rewrite lookup_fmap. destruct (tm !! n) as [node|] eqn:Hn; simpl; [|done].
  f_equal. apply applyNode_unmatched. intros e He. by apply (Hno n node).
Qed.

(** X9: when the metrics client is missing and cannot be constructed,
    [AppendGraph] on a non-empty traffic map ends in the panic of
    [graph.CheckError] with the constructor's error. *)
Theorem AppendGraph_client_failure a w namespaceInfo err :
  trafficMap w ≠ ∅ →
  PromClient (globalInfo w) = None →
  NewClient = inl err →
  AppendGraph a w namespaceInfo = Panicked err.
Proof.
  intros Hne Hc Hnew. unfold AppendGraph.
  rewrite decide_False by (intros Hs; by apply map_size_empty_iff in Hs).
  by rewrite Hc, Hnew.
Qed.

(** X10: what a returning invocation of [AppendGraph] keeps: the node IDs of
    the traffic map, each node's ID and its (source-ID, dest-ID) edge pairs;
    the queries issued before, extended by none or by two queries at the
    appender's query instant; a client handle that was set. *)
Theorem AppendGraph_preserves a w namespaceInfo w' :
  AppendGraph a w namespaceInfo = Done w' →
  dom (trafficMap w') = dom (trafficMap w)
  ∧ (∀ n node,
       trafficMap w !! n = Some node →
       ∃ node',
         trafficMap w' !! n = Some node'
         ∧ NodeID node' = NodeID node
         ∧ (fun e => (ID (Source e), ID (Dest e))) <$> Edges node'
           = (fun e => (ID (Source e), ID (Dest e))) <$> Edges node)
  ∧ (∃ issued,
       queries w' = queries w ++ issued
       ∧ (issued = [] ∨ length issued = 2%nat)
       ∧ Forall (fun q => qTime q = QueryTime a) issued)
  ∧ (∀ client,
       PromClient (globalInfo w) = Some client →
       PromClient (globalInfo w') = Some client).
Proof.
  unfold AppendGraph. destruct (decide _) as [_|_].
  - intros [= <-]. split; [done|]. split; [by eauto|].
    split; [|done]. exists []. rewrite app_nil_r. by auto.
  - assert (Hrun : ∀ client gi,
        (∀ c, PromClient (globalInfo w) = Some c → PromClient gi = Some c) →
        (let '(trafficMap', log) :=
           appendGraph a (trafficMap w) (Namespace namespaceInfo) client (queries w) in
         Done {| trafficMap := trafficMap'; globalInfo := gi; queries := log |})
        = Done w' →
        dom (trafficMap w') = dom (trafficMap w)
        ∧ (∀ n node,
             trafficMap w !! n = Some node →
             ∃ node',
               trafficMap w' !! n = Some node'
               ∧ NodeID node' = NodeID node
               ∧ (fun e => (ID (Source e), ID (Dest e))) <$> Edges node'
                 = (fun e => (ID (Source e), ID (Dest e))) <$> Edges node)
        ∧ (∃ issued,
             queries w' = queries w ++ issued
             ∧ (issued = [] ∨ length issued = 2%nat)
             ∧ Forall (fun q => qTime q = QueryTime a) issued)
        ∧ (∀ c, PromClient (globalInfo w) = Some c →
                PromClient (globalInfo w') = Some c)).
    { intros client gi Hgi. unfold appendGraph; cbv zeta. intros [= <-]; simpl.
      split; [unfold applySecurityPolicy; apply dom_fmap_L|].
      split.
      - intros n node Hn. eexists. unfold applySecurityPolicy.
        rewrite lookup_fmap, Hn; simpl. split; [done|]. apply applyNode_pairs.
      - split; [|done].
        eexists [_; _]. rewrite <- app_assoc; simpl.
        split; [done|]. split; [by right|]. by repeat constructor. }
    destruct (PromClient (globalInfo w)) as [client|] eqn:Hc.
    + apply Hrun. intros c [= <-]. done.
    + destruct NewClient as [err|client]; [done|].
      apply Hrun. done.
Qed.

(** X11: when both queries return only series that lack a grouping label
    (or no series at all), [AppendGraph] issues its queries and leaves the
    traffic map as it was. *)
Theorem AppendGraph_malformed_results a w namespaceInfo client :
  trafficMap w ≠ ∅ →
  PromClient (globalInfo w) = Some client →
  Forall (fun s => requiredLabelsOk (Metric s) = false)
    (promQuery (outboundQuery a (Namespace namespaceInfo)) (QueryTime a) client) →
  Forall (fun s => requiredLabelsOk (Metric s) = false)
    (promQuery (inboundQuery a (Namespace namespaceInfo)) (QueryTime a) client) →
  ∃ w',
    AppendGraph a w namespaceInfo = Done w'
    ∧ trafficMap w' = trafficMap w
    ∧ length (queries w') = (length (queries w) + 2)%nat.
Proof.
  intros Hne Hc Hout Hin. unfold AppendGraph.
  rewrite decide_False by (intros Hs; by apply map_size_empty_iff in Hs).
  rewrite Hc. unfold appendGraph; cbv zeta.
  rewrite (populate_all_malformed a _ _ Hout), (populate_all_malformed a _ _ Hin).
  eexists. split; [reflexivity|]. simpl. split.
  - unfold applySecurityPolicy. rewrite <- (map_fmap_id (trafficMap w)) at 2.
    apply map_fmap_ext. intros n node _. apply applyNode_unmatched.
    intros e _. apply lookup_empty.
  - rewrite !length_app; simpl. lia.
Qed.

(** ** Independence from the iteration order, and repeated invocations *)

(** At most one label other than the mutual-TLS one has a rate. *)
Definition singleOtherLabel (policyRates : PolicyRates) : Prop :=
  ∀ k1 k2,
    k1 ≠ policyMTLS → k2 ≠ policyMTLS →
    is_Some (policyRates !! k1) → is_Some (policyRates !! k2) → k1 = k2.

Lemma filter_other_short (policyRates : PolicyRates) (kvs : list (string * float)) :
  singleOtherLabel policyRates →
  kvs ≡ₚ map_to_list policyRates →
  (length (filter (fun kv : string * float => fst kv ≠ policyMTLS) kvs) ≤ 1)%nat.
Proof.
  intros Hone Hperm.
  assert (Hnd : NoDup (filter (fun kv : string * float => fst kv ≠ policyMTLS) kvs).*1).
  { apply (sublist_NoDup _ (kvs.*1)).
    - rewrite Hperm. apply NoDup_fst_map_to_list.
    - apply fmap_sublist, sublist_filter. }
  assert (Hin : ∀ kv, kv ∈ filter (fun kv : string * float => fst kv ≠ policyMTLS) kvs →
                      fst kv ≠ policyMTLS ∧ is_Some (policyRates !! fst kv)).
  { intros [k r] Hkv. apply list_elem_of_filter in Hkv as [Hk Hkv].
    split; [done|]. rewrite Hperm in Hkv. apply elem_of_map_to_list in Hkv.
    simpl. by eexists. }
  destruct (filter _ kvs) as [|x [|y l]]; simpl; [lia|lia|].
  exfalso.
  destruct (Hin x) as [Hx1 Hx2]; [apply list_elem_of_here|].
  destruct (Hin y) as [Hy1 Hy2]; [apply list_elem_of_further, list_elem_of_here|].
  simpl in Hnd. apply NoDup_cons in Hnd as [Hnin _].
  apply Hnin. rewrite (Hone _ _ Hx1 Hy1 Hx2 Hy2). apply list_elem_of_here.
Qed.

Lemma otherRate_canonical (policyRates : PolicyRates) :
  singleOtherLabel policyRates →
  otherRate (rangeOrder policyRates) = otherRate (map_to_list policyRates).
Proof using Type rangeOrder_perm.
  intros Hone. unfold otherRate. do 2 f_equal.
  pose proof (filter_other_short policyRates _ Hone (rangeOrder_perm policyRates)) as Hlen.
  assert (Hp : filter (fun kv : string * float => fst kv ≠ policyMTLS)
                 (rangeOrder policyRates)
               ≡ₚ filter (fun kv : string * float => fst kv ≠ policyMTLS)
                    (map_to_list policyRates))
    by (by rewrite rangeOrder_perm).
  destruct (filter _ (rangeOrder policyRates)) as [|x [|y l]]; simpl in Hlen.
  - by apply Permutation_nil_l in Hp.
  - by apply Permutation_singleton_l in Hp.
  - lia.
Qed.

Lemma applyEdge_canonical spm e :
  (∀ key policyRates, spm !! key = Some policyRates → singleOtherLabel policyRates) →
  applyEdge spm e
  = match spm !! edgeKey (ID (Source e)) (ID (Dest e)) with
    | Some policyRates =>
        {| Source := Source e; Dest := Dest e;
           Metadata :=
             <[IsMTLS := MetaFloat (mtlsPercentage (mtlsRate policyRates)
                                      (otherRate (map_to_list policyRates)))]>
               (Metadata e) |}
    | None => e
    end.
Proof using Type rangeOrder_perm.
  intros Hone.
  destruct (spm !! edgeKey (ID (Source e)) (ID (Dest e))) as [policyRates|] eqn:Hl.
  - rewrite (applyEdge_found _ _ _ Hl).
    by rewrite (otherRate_canonical _ (Hone _ _ Hl)).
  - by apply applyEdge_absent.
Qed.

Lemma applySecurityPolicy_canonical tm spm :
  (∀ key policyRates, spm !! key = Some policyRates → singleOtherLabel policyRates) →
  applySecurityPolicy tm spm
  = (fun node =>
       {| NodeID := NodeID node;
          Edges :=
            (fun e =>
               match spm !! edgeKey (ID (Source e)) (ID (Dest e)) with
               | Some policyRates =>
                   {| Source := Source e; Dest := Dest e;
                      Metadata :=
                        <[IsMTLS := MetaFloat (mtlsPercentage (mtlsRate policyRates)
                                                 (otherRate (map_to_list policyRates)))]>
                          (Metadata e) |}
               | None => e
               end) <$> Edges node |}) <$> tm.
Proof using Type rangeOrder_perm.
  intros Hone. unfold applySecurityPolicy.
  apply map_fmap_ext. intros n node _. unfold applyNode. f_equal.
  apply list_fmap_ext. intros i e _. by apply applyEdge_canonical.
Qed.



(** X14: one observation assigns exactly one slot: after [addSecurityPolicy]
    the rate under its key and label is the observed value, and every other
    (key, label) holds what it held before. *)
Theorem addSecurityPolicy_lookup a m csp val
    sNs sSvc sWl sApp sVer dSvcNs dSvc dWlNs dWl dApp dVer key' csp' :
  rateAt
    (addSecurityPolicy a m csp val sNs sSvc sWl sApp sVer dSvcNs dSvc dWlNs dWl dApp dVer)
    key' csp'
  = if decide (policyKey a sNs sSvc sWl sApp sVer dSvcNs dSvc dWlNs dWl dApp dVer = key'
               ∧ csp = csp')
    then Some val
    else rateAt m key' csp'.
Proof. rewrite addSecurityPolicy_setRate. apply rateAt_setRate. Qed.

End Appender.

(** ** Across iteration orders and across invocations *)

(** X12: when every rate map of the aggregated map has at most one label
    besides ["mutual_tls"], the annotated traffic map is the same for any
    two orders in which [range] may visit the rates. *)
Theorem applySecurityPolicy_order_independent (IsMTLS : string)
    (order1 order2 : PolicyRates → list (string * float))
    (tm : TrafficMap) (spm : SecurityPolicyMap) :
  (∀ m : PolicyRates, order1 m ≡ₚ map_to_list m) →
  (∀ m : PolicyRates, order2 m ≡ₚ map_to_list m) →
  (∀ key policyRates, spm !! key = Some policyRates → singleOtherLabel policyRates) →
  applySecurityPolicy IsMTLS order1 tm spm = applySecurityPolicy IsMTLS order2 tm spm.
Proof.
  intros H1 H2 Hone.
  rewrite (applySecurityPolicy_canonical IsMTLS order1 H1 tm spm Hone).
  by rewrite (applySecurityPolicy_canonical IsMTLS order2 H2 tm spm Hone).
Qed.


(** ** The theorems at work on the concrete mesh *)

(** The enumeration order [map_to_list] is one [range] may take. *)
Lemma map_to_list_order (m : PolicyRates) : map_to_list m ≡ₚ map_to_list m.
Proof. reflexivity. Defined.

(** C1 on the edge [a -> b] with rates [{mutual_tls: 8, plaintext: 2}]. *)
Lemma applySecurityPolicy_percentage_witness :
  ∃ node' e',
    applySecurityPolicy "isMTLS" map_to_list fixtureTrafficMap
      {[ "wl_ns_a wl_ns_b" := {[ "mutual_tls" := 8%float; "plaintext" := 2%float ]} ]}
      !! "wl_ns_a" = Some node'
    ∧ Edges node' !! 0%nat = Some e'
    ∧ Metadata e' !! "isMTLS" = Some (MetaFloat 80%float).
Proof.
  assert (Hkey : ({[ "wl_ns_a wl_ns_b"
                      := {[ "mutual_tls" := 8%float; "plaintext" := 2%float ]} ]}
                    : SecurityPolicyMap)
                  !! edgeKey (ID (Source fixtureEdge)) (ID (Dest fixtureEdge))
                  = Some {[ "mutual_tls" := 8%float; "plaintext" := 2%float ]}).
  { vm_compute. reflexivity. }
  destruct (proj1 (applySecurityPolicy_percentage "isMTLS" map_to_list map_to_list_order)
              fixtureTrafficMap _
              "wl_ns_a" {| NodeID := "wl_ns_a"; Edges := [fixtureEdge] |} 0%nat fixtureEdge
              _ eq_refl eq_refl Hkey)
    as (node' & e' & Hn & He & Hm).
  exists node', e'. split; [exact Hn|]. split; [exact He|].
  rewrite Hm. vm_compute. reflexivity.
Defined.

(** C2 on the series [a -> b] through [svc], processed after an earlier
    series for the same pair, with and without injection. *)
Lemma populateSecurityPolicyMap_injection_witness :
  (rateAt
     (populateSecurityPolicyMap fixtureId "service" (fixtureAppender true ∅) ∅
        ([fixtureSample "mutual_tls" 1%float] ++ [fixtureSample "mutual_tls" 8%float]))
     (policyKey fixtureId (fixtureAppender true ∅)
        "ns" "" "a" "a" "v1" "ns" "svc" "" "" "" "")
     "mutual_tls"
   = Some 8%float
   ∧ rateAt
       (populateSecurityPolicyMap fixtureId "service" (fixtureAppender true ∅) ∅
          ([fixtureSample "mutual_tls" 1%float] ++ [fixtureSample "mutual_tls" 8%float]))
       (policyKey fixtureId (fixtureAppender true ∅)
          "ns" "svc" "" "" "" "ns" "svc" "ns" "b" "b" "v1")
       "mutual_tls"
     = Some 8%float)
  ∧ rateAt
      (populateSecurityPolicyMap fixtureId "service" (fixtureAppender false ∅) ∅
         ([fixtureSample "mutual_tls" 1%float] ++ [fixtureSample "mutual_tls" 8%float]))
      (policyKey fixtureId (fixtureAppender false ∅)
         "ns" "" "a" "a" "v1" "ns" "svc" "ns" "b" "b" "v1")
      "mutual_tls"
    = Some 8%float.
Proof.
  split.
  - assert (Hkind : snd (fixtureId "ns" "svc" "ns" "b" "b" "v1"
                           (GraphType (fixtureAppender true ∅))) ≠ "service").
    { vm_compute. discriminate. }
    destruct (proj1 (populateSecurityPolicyMap_injection fixtureId "service"
                       (fixtureAppender true ∅) ∅ [fixtureSample "mutual_tls" 1%float]
                       (fixtureSample "mutual_tls" 8%float)
                       "ns" "a" "a" "v1" "ns" "svc" "ns" "b" "b" "v1" "mutual_tls"
                       eq_refl eq_refl eq_refl eq_refl eq_refl eq_refl eq_refl eq_refl
                       eq_refl eq_refl eq_refl) eq_refl Hkind)
      as (_ & Hfirst & Hsecond & _).
    split; [exact Hfirst|exact Hsecond].
  - destruct (proj2 (populateSecurityPolicyMap_injection fixtureId "service"
                       (fixtureAppender false ∅) ∅ [fixtureSample "mutual_tls" 1%float]
                       (fixtureSample "mutual_tls" 8%float)
                       "ns" "a" "a" "v1" "ns" "svc" "ns" "b" "b" "v1" "mutual_tls"
                       eq_refl eq_refl eq_refl eq_refl eq_refl eq_refl eq_refl eq_refl
                       eq_refl eq_refl eq_refl) (or_introl eq_refl))
      as (_ & Hdirect & _).
    exact Hdirect.
Defined.

(** C3 on the concrete mesh: the outbound query reports 8 under mutual TLS
    and 2 without, the inbound query 2 under mutual TLS for the same pair;
    the map [appendGraph] annotates from holds 2 and 2, and the edge gets
    50. *)
Lemma inbound_overwrites_outbound_witness :
  ∃ spm : SecurityPolicyMap,
    fst (appendGraph fixtureId "service" "isMTLS" fixtureIstioNamespaces fixtureSeconds
           unit fixtureDirectionalQuery map_to_list (fixtureAppender false ∅)
           fixtureTrafficMap "ns" tt [])
    = applySecurityPolicy "isMTLS" map_to_list fixtureTrafficMap spm
    ∧ rateAt spm "wl_ns_a wl_ns_b" "mutual_tls" = Some 2%float
    ∧ rateAt spm "wl_ns_a wl_ns_b" "none" = Some 2%float
    ∧ metadataAt
        (fst (appendGraph fixtureId "service" "isMTLS" fixtureIstioNamespaces
                fixtureSeconds unit fixtureDirectionalQuery map_to_list
                (fixtureAppender false ∅) fixtureTrafficMap "ns" tt []))
        "wl_ns_a" 0 "isMTLS"
      = Some (MetaFloat 50%float).
Proof.
  destruct (proj2 (proj2 (inbound_overwrites_outbound fixtureId "service" "isMTLS"
                            fixtureIstioNamespaces fixtureSeconds unit
                            fixtureDirectionalQuery map_to_list (fixtureAppender false ∅)))
              fixtureTrafficMap "ns" tt [])
    as (spm & Hannotated & Hslots).
  exists spm. split; [exact Hannotated|].
  split; [rewrite Hslots; vm_compute; reflexivity|].
  split; [rewrite Hslots; vm_compute; reflexivity|].
  vm_compute. reflexivity.
Defined.

(** C4 on the concrete traffic map, annotated from an aggregated map that
    knows the edge [a -> b] and a pair that is no edge. *)
Lemma applySecurityPolicy_frame_witness :
  ∃ node',
    applySecurityPolicy "isMTLS" map_to_list fixtureTrafficMap
      {[ "wl_ns_a wl_ns_b" := {[ "mutual_tls" := 5%float ]};
         "wl_ns_b wl_ns_a" := {[ "mutual_tls" := 5%float ]} ]}
      !! "wl_ns_a" = Some node'
    ∧ NodeID node' = "wl_ns_a"
    ∧ length (Edges node') = 1%nat
    ∧ (fun e => (ID (Source e), ID (Dest e))) <$> Edges node' = [("wl_ns_a", "wl_ns_b")].
Proof.
  destruct (proj2 (proj2 (applySecurityPolicy_frame "isMTLS" map_to_list fixtureTrafficMap
                            {[ "wl_ns_a wl_ns_b" := {[ "mutual_tls" := 5%float ]};
                               "wl_ns_b wl_ns_a" := {[ "mutual_tls" := 5%float ]} ]}))
              "wl_ns_a" {| NodeID := "wl_ns_a"; Edges := [fixtureEdge] |} eq_refl)
    as (node' & Hn & Hid & Hlen & Hpairs & _).
  exists node'. split; [exact Hn|]. split; [exact Hid|]. split; [exact Hlen|exact Hpairs].
Defined.

(** C5 on a vector whose middle series lacks the policy label. *)
Lemma populate_skips_missing_label_witness :
  populateSample fixtureId "service" (fixtureAppender false ∅) ∅ fixtureBrokenSample = ∅
  ∧ populateSecurityPolicyMap fixtureId "service" (fixtureAppender false ∅) ∅
      ([fixtureSample "mutual_tls" 8%float] ++ fixtureBrokenSample :: [fixtureSample "none" 2%float])
    = populateSecurityPolicyMap fixtureId "service" (fixtureAppender false ∅) ∅
        ([fixtureSample "mutual_tls" 8%float] ++ [fixtureSample "none" 2%float])
  ∧ applySecurityPolicy "isMTLS" map_to_list fixtureTrafficMap
      (populateSecurityPolicyMap fixtureId "service" (fixtureAppender false ∅) ∅
         ([fixtureSample "mutual_tls" 8%float] ++ fixtureBrokenSample
            :: [fixtureSample "none" 2%float]))
    = applySecurityPolicy "isMTLS" map_to_list fixtureTrafficMap
        (populateSecurityPolicyMap fixtureId "service" (fixtureAppender false ∅) ∅
           ([fixtureSample "mutual_tls" 8%float] ++ [fixtureSample "none" 2%float])).
Proof.
  apply (populate_skips_missing_label fixtureId "service" "isMTLS" map_to_list
           (fixtureAppender false ∅) ∅ [fixtureSample "mutual_tls" 8%float]
           [fixtureSample "none" 2%float] fixtureBrokenSample
           "connection_security_policy" fixtureTrafficMap).
  - unfold requiredLabels.
    repeat first [apply list_elem_of_here | apply list_elem_of_further].
  - vm_compute. reflexivity.
Defined.

(** C6 on an empty traffic map, with no client initialised yet. *)
Lemma AppendGraph_empty_witness :
  AppendGraph fixtureId "service" "isMTLS" fixtureIstioNamespaces fixtureSeconds unit
    (inr tt) fixtureQuery map_to_list (fixtureAppender true fixtureNamespaces)
    (fixtureWorld ∅ None) {| Namespace := "ns" |}
  = Done (fixtureWorld ∅ None).
Proof.
  apply (AppendGraph_empty fixtureId "service" "isMTLS" fixtureIstioNamespaces fixtureSeconds
           unit (inr tt) fixtureQuery map_to_list (fixtureAppender true fixtureNamespaces)
           (fixtureWorld ∅ None) {| Namespace := "ns" |}).
  reflexivity.
Defined.

(** C7 on the edge [a -> b], the backend having reported a rate of zero. *)
Lemma applySecurityPolicy_zero_rates_witness :
  Metadata
    (applyEdge "isMTLS" map_to_list
       (populateSecurityPolicyMap fixtureId "service" (fixtureAppender false ∅) ∅
          [fixtureSample "mutual_tls" 0%float])
       fixtureEdge)
    !! "isMTLS"
  = Some (MetaFloat nan).
Proof.
  apply (proj2 (applySecurityPolicy_zero_rates fixtureId "service" "isMTLS" map_to_list
                  map_to_list_order)
           (fixtureAppender false ∅) (fixtureSample "mutual_tls" 0%float) fixtureEdge).
  - vm_compute. reflexivity.
  - reflexivity.
  - reflexivity.
  - vm_compute. reflexivity.
Defined.

(** C8 with no namespace marked as infrastructure, and with two of them. *)
Lemma inboundQuery_exclusion_witness :
  (inboundQuery fixtureIstioNamespaces fixtureSeconds (fixtureAppender false ∅) "ns"
   = "sum(rate(istio_requests_total{reporter=" +:+ dq +:+ "destination" +:+ dq
     +:+ ",source_workload_namespace=" +:+ dq +:+ "ns" +:+ dq
     +:+ "}[0s]) > 0) by (" +:+ groupBy +:+ ")"
   ∧ hasChar "~"
       (inboundQuery fixtureIstioNamespaces fixtureSeconds (fixtureAppender false ∅) "ns")
     = false)
  ∧ inboundQuery fixtureIstioNamespaces fixtureSeconds
      (fixtureAppender false fixtureNamespaces) "ns"
    = "sum(rate(istio_requests_total{reporter=" +:+ dq +:+ "destination" +:+ dq
      +:+ ",source_workload_namespace=" +:+ dq +:+ "ns" +:+ dq
      +:+ ",destination_service_namespace!~" +:+ dq
      +:+ "istio-system|istio-telemetry" +:+ dq
      +:+ "}[60s]) > 0) by (" +:+ groupBy +:+ ")".
Proof.
  split.
  - assert (Hnil : fixtureIstioNamespaces (Namespaces (fixtureAppender false ∅)) = []).
    { vm_compute. reflexivity. }
    destruct (proj1 (inboundQuery_exclusion fixtureIstioNamespaces fixtureSeconds
                       (fixtureAppender false ∅) "ns") Hnil)
      as (_ & Hquery & Htilde).
    split; [rewrite Hquery; reflexivity|].
    apply Htilde. reflexivity.
  - assert (Hne : fixtureIstioNamespaces (Namespaces (fixtureAppender false fixtureNamespaces))
                  ≠ []).
    { vm_compute. discriminate. }
    destruct (proj2 (inboundQuery_exclusion fixtureIstioNamespaces fixtureSeconds
                       (fixtureAppender false fixtureNamespaces) "ns") Hne)
      as (_ & Hquery).
    rewrite Hquery. vm_compute. reflexivity.
Defined.

(** C9 as stated fails on an empty traffic map: the invocation returns with
    no query issued, not two. *)
Lemma AppendGraph_empty_issues_no_query :
  ∃ w',
    AppendGraph fixtureId "service" "isMTLS" fixtureIstioNamespaces fixtureSeconds unit
      (inr tt) fixtureQuery map_to_list (fixtureAppender false fixtureNamespaces)
      (fixtureWorld ∅ (Some tt)) {| Namespace := "ns" |}
    = Done w'
    ∧ queries w' = []
    ∧ length (queries w') ≠ 2%nat.
Proof.
  exists (fixtureWorld ∅ (Some tt)).
  split; [reflexivity|]. split; [reflexivity|]. simpl. discriminate.
Qed.

(** C9, amended, on the concrete mesh with the client still to construct:
    two queries, outbound then inbound, at the appender's query instant. *)
Lemma AppendGraph_two_queries_witness :
  ∃ w',
    AppendGraph fixtureId "service" "isMTLS" fixtureIstioNamespaces fixtureSeconds unit
      (inr tt) fixtureQuery map_to_list (fixtureAppender false fixtureNamespaces)
      (fixtureWorld fixtureTrafficMap None) {| Namespace := "ns" |}
    = Done w'
    ∧ queries w'
      = [ {| qExpr := outboundQuery fixtureSeconds (fixtureAppender false fixtureNamespaces) "ns";
             qTime := 1600000000 |};
          {| qExpr := inboundQuery fixtureIstioNamespaces fixtureSeconds
                        (fixtureAppender false fixtureNamespaces) "ns";
             qTime := 1600000000 |} ]
    ∧ PromClient (globalInfo w') = Some tt.
Proof.
  assert (Hne : trafficMap (fixtureWorld fixtureTrafficMap None) ≠ ∅).
  { intros Hempty.
    assert (Hl : trafficMap (fixtureWorld fixtureTrafficMap None) !! "wl_ns_a" = None)
      by (rewrite Hempty; apply lookup_empty).
    vm_compute in Hl. discriminate Hl. }
  destruct (AppendGraph_two_queries fixtureId "service" "isMTLS" fixtureIstioNamespaces
              fixtureSeconds unit (inr tt) fixtureQuery map_to_list
              (fixtureAppender false fixtureNamespaces)
              (fixtureWorld fixtureTrafficMap None) {| Namespace := "ns" |} tt
              Hne (or_intror (conj eq_refl eq_refl)))
    as (w' & Hrun & Hqueries & Hclient & _).
  exists w'. split; [exact Hrun|]. split; [exact Hqueries|exact Hclient].
Defined.

(** The whole invocation on the concrete mesh: the backend reports 8
    requests per second under mutual TLS and 2 without, and the edge
    [a -> b] ends up annotated with 80. *)
Example AppendGraph_annotates_fixture :
  match
    AppendGraph fixtureId "service" "isMTLS" fixtureIstioNamespaces fixtureSeconds unit
      (inr tt) fixtureQuery map_to_list (fixtureAppender false fixtureNamespaces)
      (fixtureWorld fixtureTrafficMap None) {| Namespace := "ns" |}
  with
  | Done w' =>
      metadataAt (trafficMap w') "wl_ns_a" 0 "isMTLS" = Some (MetaFloat 80%float)
      ∧ length (queries w') = 2%nat
  | Panicked _ => False
  end.
Proof. vm_compute. split; reflexivity. Qed.

(** ** The further properties on the concrete mesh *)

Lemma fixtureTrafficMap_nonempty (client : option unit) :
  trafficMap (fixtureWorld fixtureTrafficMap client) ≠ ∅.
Proof.
  intros Hempty.
  assert (Hl : trafficMap (fixtureWorld fixtureTrafficMap client) !! "wl_ns_a" = None)
    by (rewrite Hempty; apply lookup_empty).
  vm_compute in Hl. discriminate Hl.
Defined.

(** X1 on the IDs of the edge [a -> b]. *)
Lemma edgeKey_injective_witness :
  "wl_ns_a" = "wl_ns_a" ∧ "wl_ns_b" = "wl_ns_b".
Proof.
  apply (proj1 edgeKey_injective "wl_ns_a" "wl_ns_b" "wl_ns_a" "wl_ns_b");
    reflexivity.
Defined.

(** X3 on the answer of the concrete backend. *)
Lemma populate_rates_nonempty_witness :
  ∃ rates : PolicyRates,
    populateSecurityPolicyMap fixtureId "service" (fixtureAppender false ∅) ∅
      (fixtureQuery "" 0 tt) !! "wl_ns_a wl_ns_b" = Some rates
    ∧ rates ≠ ∅.
Proof.
  exists {[ "none" := 2%float; "mutual_tls" := 8%float ]}.
  assert (Hl : populateSecurityPolicyMap fixtureId "service" (fixtureAppender false ∅) ∅
                 (fixtureQuery "" 0 tt) !! "wl_ns_a wl_ns_b"
               = Some {[ "none" := 2%float; "mutual_tls" := 8%float ]}).
  { vm_compute. reflexivity. }
  split; [exact Hl|].
  refine (populate_rates_nonempty fixtureId "service" (fixtureAppender false ∅) ∅
            (fixtureQuery "" 0 tt) _ "wl_ns_a wl_ns_b" _ Hl).
  intros key rates H. rewrite lookup_empty in H. discriminate H.
Defined.

(** X4: the rate 2 under ["none"] comes from the second series. *)
Lemma populate_rate_origin_witness :
  rateAt ∅ "wl_ns_a wl_ns_b" "none" = Some 2%float
  ∨ ∃ s,
      s ∈ fixtureQuery "" 0 tt
      ∧ requiredLabelsOk (Metric s) = true
      ∧ "none" = label (Metric s) "connection_security_policy"
      ∧ 2%float = Value s
      ∧ ("wl_ns_a wl_ns_b" = callerKey fixtureId (fixtureAppender false ∅) s
         ∨ "wl_ns_a wl_ns_b" = callerToServiceKey fixtureId (fixtureAppender false ∅) s
         ∨ "wl_ns_a wl_ns_b" = serviceToDestKey fixtureId (fixtureAppender false ∅) s).
Proof.
  apply (populate_rate_origin fixtureId "service" (fixtureAppender false ∅) ∅
           (fixtureQuery "" 0 tt) "wl_ns_a wl_ns_b" "none" 2%float).
  vm_compute. reflexivity.
Defined.

(** X5: a pair recorded before the aggregation is still there. *)
Lemma populate_keeps_entries_witness :
  is_Some
    (populateSecurityPolicyMap fixtureId "service" (fixtureAppender false ∅)
       {[ "x y" := {[ "mutual_tls" := 1%float ]} ]} (fixtureQuery "" 0 tt) !! "x y")
  ∧ ∀ csp,
      is_Some (rateAt {[ "x y" := {[ "mutual_tls" := 1%float ]} ]} "x y" csp) →
      is_Some
        (rateAt
           (populateSecurityPolicyMap fixtureId "service" (fixtureAppender false ∅)
              {[ "x y" := {[ "mutual_tls" := 1%float ]} ]} (fixtureQuery "" 0 tt))
           "x y" csp).
Proof.
  apply (populate_keeps_entries fixtureId "service" (fixtureAppender false ∅)
           {[ "x y" := {[ "mutual_tls" := 1%float ]} ]} (fixtureQuery "" 0 tt) "x y").
  vm_compute. by eexists.
Defined.

(** X6 with injection: both hops carry the last series' value. *)
Lemma populate_last_series_wins_witness :
  rateAt
    (populateSecurityPolicyMap fixtureId "service" (fixtureAppender true ∅) ∅
       ([fixtureSample "mutual_tls" 8%float] ++ [fixtureSample "mutual_tls" 3%float]))
    (callerToServiceKey fixtureId (fixtureAppender true ∅) (fixtureSample "mutual_tls" 3%float))
    (label (Metric (fixtureSample "mutual_tls" 3%float)) "connection_security_policy")
  = Some (Value (fixtureSample "mutual_tls" 3%float))
  ∧ rateAt
      (populateSecurityPolicyMap fixtureId "service" (fixtureAppender true ∅) ∅
         ([fixtureSample "mutual_tls" 8%float] ++ [fixtureSample "mutual_tls" 3%float]))
      (serviceToDestKey fixtureId (fixtureAppender true ∅) (fixtureSample "mutual_tls" 3%float))
      (label (Metric (fixtureSample "mutual_tls" 3%float)) "connection_security_policy")
    = Some (Value (fixtureSample "mutual_tls" 3%float)).
Proof.
  assert (Hok : requiredLabelsOk (Metric (fixtureSample "mutual_tls" 3%float)) = true).
  { vm_compute. reflexivity. }
  apply (proj2 (populate_last_series_wins fixtureId "service" (fixtureAppender true ∅) ∅
                  [fixtureSample "mutual_tls" 8%float] (fixtureSample "mutual_tls" 3%float)
                  Hok)).
  vm_compute. reflexivity.
Defined.

(** X7: the two series of the concrete backend, in either order. *)
Lemma populate_permutation_witness :
  populateSecurityPolicyMap fixtureId "service" (fixtureAppender false ∅) ∅
    [fixtureSample "mutual_tls" 8%float; fixtureSample "none" 2%float]
  = populateSecurityPolicyMap fixtureId "service" (fixtureAppender false ∅) ∅
      [fixtureSample "none" 2%float; fixtureSample "mutual_tls" 8%float].
Proof.
  apply (populate_permutation fixtureId "service" (fixtureAppender false ∅) ∅).
  - apply perm_swap.
  - apply (bool_decide_unpack _). vm_compute. exact I.
Defined.

(** X8: an aggregated map that only knows the reverse pair [b -> a]. *)
Lemma applySecurityPolicy_no_match_witness :
  applySecurityPolicy "isMTLS" map_to_list fixtureTrafficMap
    {[ "wl_ns_b wl_ns_a" := {[ "mutual_tls" := 5%float ]} ]}
  = fixtureTrafficMap.
Proof.
  apply (applySecurityPolicy_no_match "isMTLS" map_to_list fixtureTrafficMap).
  intros n node e Hn He. unfold fixtureTrafficMap in Hn.
  apply lookup_insert_Some in Hn as [[_ <-]|[_ Hn]].
  - apply list_elem_of_singleton in He as ->. vm_compute. reflexivity.
  - apply lookup_singleton_Some in Hn as [_ <-]. by apply elem_of_nil in He.
Defined.

(** X9: no client yet, and the constructor fails. *)
Lemma AppendGraph_client_failure_witness :
  AppendGraph fixtureId "service" "isMTLS" fixtureIstioNamespaces fixtureSeconds unit
    (inl "no metrics backend") fixtureQuery map_to_list
    (fixtureAppender false fixtureNamespaces)
    (fixtureWorld fixtureTrafficMap None) {| Namespace := "ns" |}
  = Panicked "no metrics backend".
Proof.
  apply (AppendGraph_client_failure fixtureId "service" "isMTLS" fixtureIstioNamespaces
           fixtureSeconds unit (inl "no metrics backend") fixtureQuery map_to_list
           (fixtureAppender false fixtureNamespaces)
           (fixtureWorld fixtureTrafficMap None) {| Namespace := "ns" |}
           "no metrics backend" (fixtureTrafficMap_nonempty None) eq_refl eq_refl).
Defined.

(** X10 on the invocation over the concrete mesh. *)
Lemma AppendGraph_preserves_witness :
  ∃ w',
    AppendGraph fixtureId "service" "isMTLS" fixtureIstioNamespaces fixtureSeconds unit
      (inr tt) fixtureQuery map_to_list (fixtureAppender false fixtureNamespaces)
      (fixtureWorld fixtureTrafficMap None) {| Namespace := "ns" |}
    = Done w'
    ∧ dom (trafficMap w') = dom fixtureTrafficMap
    ∧ ∃ issued,
        queries w' = [] ++ issued
        ∧ (issued = [] ∨ length issued = 2%nat)
        ∧ Forall (fun q => qTime q = 1600000000) issued.
Proof.
  destruct (AppendGraph fixtureId "service" "isMTLS" fixtureIstioNamespaces fixtureSeconds
              unit (inr tt) fixtureQuery map_to_list
              (fixtureAppender false fixtureNamespaces)
              (fixtureWorld fixtureTrafficMap None) {| Namespace := "ns" |})
    as [w'|err] eqn:Hrun; [|vm_compute in Hrun; discriminate Hrun].
  exists w'. split; [reflexivity|].
  destruct (AppendGraph_preserves _ _ _ _ _ _ _ _ _ _ _ _ _ Hrun)
    as (Hdom & _ & Hissued & _).
  split; [exact Hdom|exact Hissued].
Defined.

(** X11: the backend answers both queries with a series that lacks its
    policy label. *)
Lemma AppendGraph_malformed_results_witness :
  ∃ w',
    AppendGraph fixtureId "service" "isMTLS" fixtureIstioNamespaces fixtureSeconds unit
      (inr tt) (fun _ _ _ => [fixtureBrokenSample]) map_to_list
      (fixtureAppender false fixtureNamespaces)
      (fixtureWorld fixtureTrafficMap (Some tt)) {| Namespace := "ns" |}
    = Done w'
    ∧ trafficMap w' = fixtureTrafficMap
    ∧ length (queries w') = 2%nat.
Proof.
  assert (Hbad : Forall (fun s => requiredLabelsOk (Metric s) = false) [fixtureBrokenSample]).
  { apply Forall_cons. split; [vm_compute; reflexivity|apply Forall_nil_2]. }
  apply (AppendGraph_malformed_results fixtureId "service" "isMTLS" fixtureIstioNamespaces
           fixtureSeconds unit (inr tt) (fun _ _ _ => [fixtureBrokenSample]) map_to_list
           (fixtureAppender false fixtureNamespaces)
           (fixtureWorld fixtureTrafficMap (Some tt)) {| Namespace := "ns" |} tt
           (fixtureTrafficMap_nonempty (Some tt)) eq_refl Hbad Hbad).
Defined.

(** X12: [map_to_list] and its reverse, on the rates [{mutual_tls, none}]. *)
Lemma applySecurityPolicy_order_independent_witness :
  applySecurityPolicy "isMTLS" map_to_list fixtureTrafficMap
    {[ "wl_ns_a wl_ns_b" := {[ "mutual_tls" := 8%float; "none" := 2%float ]} ]}
  = applySecurityPolicy "isMTLS" (fun m => reverse (map_to_list m)) fixtureTrafficMap
      {[ "wl_ns_a wl_ns_b" := {[ "mutual_tls" := 8%float; "none" := 2%float ]} ]}.
Proof.
  apply (applySecurityPolicy_order_independent "isMTLS" map_to_list
           (fun m => reverse (map_to_list m)) fixtureTrafficMap).
  - intros m. reflexivity.
  - intros m. apply reverse_Permutation.
  - intros key policyRates Hl. apply lookup_singleton_Some in Hl as [_ <-].
    assert (Hnone : ∀ k, k ≠ policyMTLS →
              is_Some (({[ "mutual_tls" := 8%float; "none" := 2%float ]} : PolicyRates) !! k) →
              k = "none").
    { intros k Hk [x Hx]. apply lookup_insert_Some in Hx as [[Hx _]|[_ Hx]].
      - exfalso. apply Hk. by rewrite <- Hx.
      - by apply lookup_singleton_Some in Hx as [<- _]. }
    intros k1 k2 Hk1 Hk2 Hs1 Hs2.
    by rewrite (Hnone k1 Hk1 Hs1), (Hnone k2 Hk2 Hs2).
Defined.

